(** * Radial-Timeline: the CSS [!important] audit script

    A shallow embedding of [scripts/audit-important.py] and the properties
    of its scan ([parse_css_file]), its classifier ([categorize_selector])
    and its report ([main]).

    Python [str] values are sequences of Unicode code points; they are
    modelled as lists of code points ([N]).  The script's [int]s are
    unbounded and are modelled in [Z] (line numbers, brace depth) or [nat]
    (lengths). *)

From Stdlib Require Import ZArith NArith Ascii String.
From stdpp Require Import base decidable option numbers list sorting.

Local Open Scope Z_scope.

(** ** Python strings *)

Module PyStr.

Definition char := N.
Definition str := list N.

(** An ASCII literal of the source, as a [str]. *)
Definition lit (s : string) : str :=
  (fix go (s : string) : list N :=
     match s with
     | EmptyString => []
     | String a s' => N_of_ascii a :: go s'
     end) s.

Definition newline : char := 10%N.

(** [Py_UNICODE_ISSPACE]: the code points stripped by [str.strip()] and
    matched by [\s] in a [str] pattern. *)
Definition is_space (c : char) : bool :=
  ((9 <=? c) && (c <=? 13) || (28 <=? c) && (c <=? 32)
   || (c =? 133) || (c =? 160) || (c =? 5760)
   || (8192 <=? c) && (c <=? 8202)
   || (c =? 8232) || (c =? 8233) || (c =? 8239) || (c =? 8287)
   || (c =? 12288))%N.

(** [s.startswith(p)] *)
Fixpoint startswith (p s : str) : bool :=
  match p, s with
  | [], _ => true
  | _ :: _, [] => false
  | a :: p', b :: s' => (a =? b)%N && startswith p' s'
  end.

(** [p in s] *)
Fixpoint contains (p s : str) : bool :=
  startswith p s ||
  match s with
  | [] => false
  | _ :: s' => contains p s'
  end.

(** [s.count(c)] for a one-character [c] *)
Fixpoint count (c : char) (s : str) : Z :=
  match s with
  | [] => 0
  | a :: s' => (if (a =? c)%N then 1 else 0) + count c s'
  end.

(** [s.find(c)] for a one-character [c]: the first index, or [-1] *)
Fixpoint find (c : char) (s : str) : Z :=
  match s with
  | [] => -1
  | a :: s' =>
      if (a =? c)%N then 0
      else let r := find c s' in if r <? 0 then -1 else 1 + r
  end.

(** [s[:i]] *)
Definition slice_to (s : str) (i : Z) : str :=
  if 0 <=? i then take (Z.to_nat i) s
  else take (Z.to_nat (Z.of_nat (length s) + i)) s.

Fixpoint lstrip_by (f : char → bool) (s : str) : str :=
  match s with
  | [] => []
  | a :: s' => if f a then lstrip_by f s' else s
  end.

Definition rstrip_by (f : char → bool) (s : str) : str :=
  reverse (lstrip_by f (reverse s)).

(** [s.strip()] *)
Definition strip (s : str) : str := rstrip_by is_space (lstrip_by is_space s).

(** [s.rstrip(chars)] *)
Definition rstrip_chars (chars : str) (s : str) : str :=
  rstrip_by (λ c, bool_decide (c ∈ chars)) s.

(** [s.endswith(p)] *)
Definition endswith (p s : str) : bool := startswith (reverse p) (reverse s).

(** truthiness of a [str] *)
Definition nonempty (s : str) : bool :=
  match s with [] => false | _ => true end.

(** [s.split('\n')] *)
Fixpoint split_lines (s : str) : list str :=
  match s with
  | [] => [[]]
  | c :: s' =>
      if (c =? newline)%N then [] :: split_lines s'
      else match split_lines s' with
           | [] => [[c]]
           | l :: ls => (c :: l) :: ls
           end
  end.

(** ['\n'.join(ls)] *)
Fixpoint join_lines (ls : list str) : str :=
  match ls with
  | [] => []
  | [l] => l
  | l :: ls' => l ++ newline :: join_lines ls'
  end.

(** [any(p in s for p in ps)] *)
Definition any_in (ps : list str) (s : str) : bool :=
  existsb (λ p, contains p s) ps.

(** Comparison of two [str] by code points, as [<=] on [str] does. *)
Fixpoint leb (a b : str) : bool :=
  match a, b with
  | [], _ => true
  | _ :: _, [] => false
  | x :: a', y :: b' => (x <? y)%N || ((x =? y)%N && leb a' b')
  end.

End PyStr.
Import PyStr.

(** ** The classifier *)

Definition cat_obsidian_resets := lit "1_obsidian_resets".
Definition cat_validation_states := lit "2_validation_states".
Definition cat_hover_states := lit "3_hover_states".
Definition cat_selection_states := lit "4_selection_states".
Definition cat_mode_overrides := lit "5_mode_overrides".
Definition cat_subplot_colors := lit "6_subplot_colors".
Definition cat_other := lit "7_other".

Definition mode_patterns : list str :=
  [ lit "[data-shift-mode"; lit "[data-gossamer-mode";
    lit "[data-chronologue-mode"; lit "[data-mode="; lit ".rt-mode-";
    lit ".rt-shift-mode"; lit ".rt-gossamer-"; lit ".rt-runtime-mode" ].

Definition state_patterns : list str :=
  [ lit ".rt-selected"; lit ".rt-non-selected"; lit ".rt-search-result";
    lit ".rt-scene-is-open"; lit ".rt-has-edits"; lit ".rt-missing-when";
    lit ".rt-grade-"; lit ".rt-global-fade" ].

Definition validation_patterns : list str :=
  [ lit ".rt-input-error"; lit ".rt-setting-input-success";
    lit ".rt-setting-input-error"; lit ".rt-flash-" ].

Definition obsidian_patterns : list str :=
  [ lit ".setting-item"; lit ".modal-content"; lit ".modal-title";
    lit ".dropdown"; lit ".markdown-preview" ].

(** [categorize_selector(selector, property_value)].  The source also
    computes [selector.lower()] into a local that it never reads. *)
Definition categorize_selector (selector property_value : str) : str :=
  if contains (lit "[data-subplot-idx") selector then cat_subplot_colors
  else if any_in mode_patterns selector then cat_mode_overrides
  else if any_in state_patterns selector then cat_selection_states
  else if contains (lit ":hover") selector
          || contains (lit ".scene-hover") selector
          || contains (lit ".rt-hover") selector then cat_hover_states
  else if any_in validation_patterns selector then cat_validation_states
  else if any_in obsidian_patterns selector then cat_obsidian_resets
  else cat_other.

(** The seven keys of [category_names], in the order the dict literal
    lists them. *)
Definition category_keys : list str :=
  [ cat_obsidian_resets; cat_validation_states; cat_hover_states;
    cat_selection_states; cat_mode_overrides; cat_subplot_colors; cat_other ].

(** ** The declaration pattern

    [re.search(r'([a-z-]+)\s*:\s*(.+?)!important', line, re.IGNORECASE)],
    as the backtracking matcher runs it: every start position from the
    left, the greedy parts longest first, the lazy part shortest first. *)

Module Regex.

(** [[a-z-]] under [re.IGNORECASE] on a [str] pattern: the 52 ASCII
    letters, the hyphen, and the four code points whose case folding
    lands in [a-z] (U+0130, U+0131, U+017F, U+212A). *)
Definition is_prop_char (c : char) : bool :=
  ((97 <=? c) && (c <=? 122) || (65 <=? c) && (c <=? 90) || (c =? 45)
   || (c =? 304) || (c =? 305) || (c =? 383) || (c =? 8490))%N.

(** One literal character of the pattern under [re.IGNORECASE]. *)
Definition lit_char_ci (p c : char) : bool :=
  if ((97 <=? p) && (p <=? 122))%N then
    ((c =? p) || (c =? p - 32)
     || (p =? 105) && ((c =? 304) || (c =? 305))
     || (p =? 115) && (c =? 383)
     || (p =? 107) && (c =? 8490))%N
  else (c =? p)%N.

Fixpoint lit_ci (p s : str) : bool :=
  match p, s with
  | [], _ => true
  | _ :: _, [] => false
  | a :: p', b :: s' => lit_char_ci a b && lit_ci p' s'
  end.

Definition marker : str := lit "!important".

(** [(.+?)!important]: the shortest non-empty run of non-newline
    characters that the marker follows; [acc] is the run so far. *)
Fixpoint lazy_value (acc s : str) : option str :=
  match s with
  | [] => None
  | c :: s' =>
      if (c =? newline)%N then None
      else if lit_ci marker s' then Some (acc ++ [c])
      else lazy_value (acc ++ [c]) s'
  end.

(** [\s*] followed by [k]: the longest run first, then shorter ones. *)
Fixpoint greedy_spaces {A} (k : str → option A) (s : str) : option A :=
  match s with
  | c :: s' =>
      if is_space c then
        match greedy_spaces k s' with
        | Some r => Some r
        | None => k s
        end
      else k s
  | [] => k s
  end.

(** [[a-z-]*] followed by [k], capturing into [acc]. *)
Fixpoint greedy_prop {A} (k : str → str → option A) (acc s : str)
  : option A :=
  match s with
  | c :: s' =>
      if is_prop_char c then
        match greedy_prop k (acc ++ [c]) s' with
        | Some r => Some r
        | None => k acc s
        end
      else k acc s
  | [] => k acc s
  end.

(** What follows group 1: [\s*:\s*(.+?)!important]. *)
Definition after_prop (g1 s : str) : option (str * str) :=
  greedy_spaces
    (λ s1, match s1 with
           | c :: s2 =>
               if (c =? 58)%N then
                 greedy_spaces (λ s3, pair g1 <$> lazy_value [] s3) s2
               else None
           | [] => None
           end) s.

(** A match anchored at the head of [s]: groups 1 and 2. *)
Definition match_here (s : str) : option (str * str) :=
  match s with
  | c :: s' => if is_prop_char c then greedy_prop after_prop [c] s' else None
  | [] => None
  end.

(** [re.search]: the leftmost start position that matches. *)
Fixpoint search (s : str) : option (str * str) :=
  match match_here s with
  | Some r => Some r
  | None => match s with
            | [] => None
            | _ :: s' => search s'
            end
  end.

End Regex.

(** ** The scan of one style sheet *)

Record ImportantDeclaration := {
  file : str;
  line_number : Z;
  selector : str;
  property : str;
  value : str;
  category : str;
}.

(** [range(start, stop, -1)] *)
Definition range_down (start stop : Z) : list Z :=
  (λ i, start - Z.of_nat i) <$> seq 0 (Z.to_nat (start - stop)).

(** [lines[i]]; [None] stands for [IndexError]. *)
Definition getitem (lines : list str) (i : Z) : option str :=
  if 0 <=? i then lines !! Z.to_nat i
  else if 0 <=? Z.of_nat (length lines) + i
       then lines !! Z.to_nat (Z.of_nat (length lines) + i)
       else None.

(** The two look-back loops index [lines] only at positions of earlier
    lines ([back_lines_in_range] below), where [getitem] succeeds; the
    default is never used. *)
Definition line_at (lines : list str) (i : Z) : str :=
  default [] (getitem lines i).

(** [enumerate(l, start)] *)
Fixpoint enumerate {A} (start : Z) (l : list A) : list (Z * A) :=
  match l with
  | [] => []
  | x :: l' => (start, x) :: enumerate (start + 1) l'
  end.

(** The loop variables of [parse_css_file]. *)
Record scan_state := {
  current_selector : str;
  brace_depth : Z;
  selector_start_line : Z;
  declarations : list ImportantDeclaration;
}.

Definition scan_init : scan_state :=
  {| current_selector := []; brace_depth := 0; selector_start_line := 0;
     declarations := [] |}.

(** The loop at source lines 128-134, run over the indices [idxs]: the
    selector it adopts and its line, or [None] when it ends without
    [break]. *)
Fixpoint look_back_selector (lines : list str) (idxs : list Z)
  : option (str * Z) :=
  match idxs with
  | [] => None
  | back_line :: idxs' =>
      let prev_line := strip (line_at lines back_line) in
      if nonempty prev_line
         && negb (startswith (lit "/*") prev_line)
         && negb (startswith (lit "*") prev_line)
         && (negb (contains (lit "{") prev_line)
             && negb (contains (lit "}") prev_line))
      then Some (prev_line, back_line + 1)
      else look_back_selector lines idxs'
  end.

(** The loop at source lines 154-162. *)
Fixpoint look_back_brace (lines : list str) (idxs : list Z) : option str :=
  match idxs with
  | [] => None
  | back_line :: idxs' =>
      let prev := strip (line_at lines back_line) in
      if endswith (lit "{") prev then Some (strip (slice_to prev (-1)))
      else if contains (lit "{") prev
           then Some (strip (slice_to prev (find 123%N prev)))
           else look_back_brace lines idxs'
  end.

(** [match.group(2).strip().rstrip(';').strip()] *)
Definition clean_value (g2 : str) : str :=
  strip (rstrip_chars (lit ";") (strip g2)).

(** The selector of a record: [current_selector], or the result of the
    second look-back when that is empty. *)
Definition record_selector (lines : list str) (line_num : Z) (cur : str)
  : str :=
  if nonempty cur then cur
  else match look_back_brace lines
               (range_down (line_num - 2) (Z.max 0 (line_num - 20))) with
       | Some s => s
       | None => cur
       end.

(** The record appended for a line that matched with groups [g1], [g2]. *)
Definition make_declaration (name : str) (lines : list str) (line_num : Z)
    (cur g1 g2 : str) : ImportantDeclaration :=
  let prop := strip g1 in
  let value := clean_value g2 in
  let selector := record_selector lines line_num cur in
  {| file := name; line_number := line_num; selector := selector;
     property := prop; value := value;
     category := categorize_selector selector (prop ++ lit ": " ++ value) |}.

(** The selector tracking of one iteration (source lines 113-140): the
    new [current_selector], [brace_depth] and [selector_start_line]. *)
Definition track_selector (lines : list str) (st : scan_state)
    (line_num : Z) (line : str) : str * Z * Z :=
  let open_braces := count 123%N line in
  let close_braces := count 125%N line in
  let '(sel, start) :=
    if 0 <? open_braces then
      let brace_pos := find 123%N line in
      if 0 <? brace_pos then
        let potential_selector := strip (slice_to line brace_pos) in
        if nonempty potential_selector
           && negb (startswith (lit "/*") potential_selector)
        then (potential_selector, line_num)
        else (current_selector st, selector_start_line st)
      else if brace_depth st =? 0 then
        match look_back_selector lines
                (range_down (line_num - 2) (Z.max 0 (line_num - 10))) with
        | Some r => r
        | None => (current_selector st, selector_start_line st)
        end
      else (current_selector st, selector_start_line st)
    else (current_selector st, selector_start_line st) in
  let depth := brace_depth st + (open_braces - close_braces) in
  let sel := if (depth =? 0) && (0 <? close_braces) then [] else sel in
  (sel, depth, start).

(** One iteration of the loop over [enumerate(lines, 1)]. *)
Definition scan_line (name : str) (lines : list str) (st : scan_state)
    (line_num : Z) (line : str) : scan_state :=
  let '(sel, depth, start) := track_selector lines st line_num line in
  {| current_selector := sel; brace_depth := depth;
     selector_start_line := start;
     declarations :=
       if contains Regex.marker line then
         match Regex.search line with
         | Some (g1, g2) =>
             declarations st
               ++ [make_declaration name lines line_num sel g1 g2]
         | None => declarations st
         end
       else declarations st |}.

Definition scan_lines (name : str) (lines : list str)
    (st : scan_state) (todo : list (Z * str)) : scan_state :=
  foldl (λ st nl, scan_line name lines st nl.1 nl.2) st todo.

(** [parse_css_file(file_path)], for a file called [name] whose decoded
    text is [content]. *)
Definition parse_css_file (name content : str) : list ImportantDeclaration :=
  let lines := split_lines content in
  declarations (scan_lines name lines scan_init (enumerate 1 lines)).

(** ** Python dicts

    A [dict] keeps its keys in insertion order, and [json.dump] writes
    them in that order: an association list, with assignment replacing in
    place or appending. *)

Module PyDict.
Section dict.
Context {V : Type}.

Definition dict := list (str * V).

(** [d.get(k)], [None] when the key is absent *)
Fixpoint get (d : dict) (k : str) : option V :=
  match d with
  | [] => None
  | (k', v) :: d' => if decide (k = k') then Some v else get d' k
  end.

(** [d[k] = v] *)
Fixpoint set (d : dict) (k : str) (v : V) : dict :=
  match d with
  | [] => [(k, v)]
  | (k', v') :: d' =>
      if decide (k = k') then (k', v) :: d' else (k', v') :: set d' k v
  end.

(** [d.keys()] *)
Definition keys (d : dict) : list str := d.*1.

(** [d.values()] *)
Definition values (d : dict) : list V := d.*2.

End dict.
Arguments dict : clear implicits.

(** [d[k].append(x)] on a [defaultdict(list)] *)
Definition dd_append {A} (d : dict (list A)) (k : str) (x : A)
  : dict (list A) :=
  set d k (default [] (get d k) ++ [x]).

(** [d[k] += 1] on a [defaultdict(int)] *)
Definition dd_incr (d : dict nat) (k : str) : dict nat :=
  set d k (default 0%nat (get d k) + 1)%nat.

(** [d = defaultdict(list); for x in l: d[key(x)].append(x)] *)
Definition group_by {A} (key : A → str) (l : list A) : dict (list A) :=
  foldl (λ d x, dd_append d (key x) x) [] l.

(** [d = defaultdict(int); for x in l: d[key(x)] += 1] *)
Definition count_by {A} (key : A → str) (l : list A) : dict nat :=
  foldl (λ d x, dd_incr d (key x)) [] l.

End PyDict.
Import PyDict.

(** [a <= b] on [str] *)
Definition str_le (a b : str) : Prop := leb a b.

#[local] Instance str_le_dec a b : Decision (str_le a b).
Proof. unfold str_le. apply _. Defined.

(** [sorted(l, key=key)] for [str] keys.  Every list the script sorts has
    pairwise distinct keys (dict keys, the names of one directory). *)
Definition sorted_by {A} (key : A → str) (l : list A) : list A :=
  merge_sort (λ a b, str_le (key a) (key b)) l.

(** [sorted(l)] on [str]s *)
Definition sorted (l : list str) : list str := merge_sort str_le l.

(** [sorted(l, key=lambda x: x.line_number)] *)
Definition line_le (a b : ImportantDeclaration) : Prop :=
  line_number a <= line_number b.

#[local] Instance line_le_dec a b : Decision (line_le a b).
Proof. unfold line_le. apply _. Defined.

Definition sorted_by_line (l : list ImportantDeclaration)
  : list ImportantDeclaration :=
  merge_sort line_le l.

(** ** The report *)

Definition category_names : dict str :=
  [ (cat_obsidian_resets, lit "Category 1: Obsidian Resets");
    (cat_validation_states, lit "Category 2: Validation States");
    (cat_hover_states, lit "Category 3: Hover States");
    (cat_selection_states, lit "Category 4: Selection States");
    (cat_mode_overrides, lit "Category 5: Mode Overrides");
    (cat_subplot_colors, lit "Category 6: Subplot Colors");
    (cat_other, lit "Category 7: Other/Uncategorized") ].

(** One value of [report['by_category']]. *)
Record category_entry := {
  e_name : str;
  e_count : nat;
  e_files : dict (list ImportantDeclaration);
}.

(** The [report] dict that [json.dump] writes; [asdict(d)] is the record
    [d] itself. *)
Record report := {
  r_total : nat;
  r_by_category : dict category_entry;
  r_declarations : list ImportantDeclaration;
}.

(** [category_names.get(cat_key, cat_key)] *)
Definition cat_name (cat_key : str) : str :=
  default cat_key (get category_names cat_key).

(** [by_category[cat_key]]; the keys looked up are those of [by_category]
    itself, so the [defaultdict] never creates an entry here. *)
Definition decls_of (by_category : dict (list ImportantDeclaration))
    (cat_key : str) : list ImportantDeclaration :=
  default [] (get by_category cat_key).

(** The entry built at source lines 241-249 for [cat_key]. *)
Definition category_entry_of
    (by_category : dict (list ImportantDeclaration)) (cat_key : str)
  : category_entry :=
  {| e_name := cat_name cat_key;
     e_count := length (decls_of by_category cat_key);
     e_files := group_by file (decls_of by_category cat_key) |}.

(** The body of the loop at source lines 239-249. *)
Definition add_category (by_category : dict (list ImportantDeclaration))
    (rep : dict category_entry) (cat_key : str) : dict category_entry :=
  set rep cat_key (category_entry_of by_category cat_key).

Definition build_report (all_declarations : list ImportantDeclaration)
  : report :=
  let by_category := group_by category all_declarations in
  {| r_total := length all_declarations;
     r_by_category :=
       foldl (add_category by_category) [] (sorted (keys by_category));
     r_declarations := all_declarations |}.

(** ** The run *)

(** What [main] sees of the world: the two paths it derives from
    [__file__], whether the styles directory exists, and the files that
    [glob('*.css')] yields there, each with its name and decoded text.
    Paths of one directory compare by name ([sorted] on POSIX paths). *)
Record environment := {
  styles_dir : str;
  report_path : str;
  styles_dir_exists : bool;
  css_files : list (str * str);
}.

(** The lines [main] prints, one constructor per [print] call. *)
Inductive console :=
  | Error_not_found (dir : str)
  | Scanning (n : nat) (dir : str)
  | File_count (name : str) (n : nat)
  | Rule_equals
  | Grand_total (n : nat)
  | Summary_header
  | Category_count (name : str) (n : nat)
  | Category_file_count (fname : str) (n : nat)
  | Blank
  | Report_written (path : str)
  | Breakdown_header
  | Rule_dashes
  | Category_header (name : str) (n : nat)
  | File_header (fname : str)
  | Declaration_line (line : Z) (property value30 : str)
  | Selector_line (selector_short : str).

(** The effects of a run, in order. *)
Inductive effect :=
  | Print (c : console)
  | Read_file (name : str)
  | Write_json (path : str) (r : report).

(** The loop at source lines 193-196: the effects and [all_declarations]. *)
Definition scan_files (files : list (str * str))
  : list effect * list ImportantDeclaration :=
  foldl (λ acc f,
           let declarations := parse_css_file f.1 f.2 in
           (acc.1 ++ [Read_file f.1;
                      Print (File_count f.1 (length declarations))],
            acc.2 ++ declarations))
        ([], []) files.

(** The summary loop at source lines 219-230. *)
Definition print_summary (by_category : dict (list ImportantDeclaration))
  : list effect :=
  cat_key ← sorted (keys by_category);
  let decls := decls_of by_category cat_key in
  [Print (Category_count (cat_name cat_key) (length decls))]
  ++ ((λ fc, Print (Category_file_count fc.1 fc.2))
        <$> sorted_by fst (count_by file decls))
  ++ [Print Blank].

(** [d.selector[:60] + '...' if len(d.selector) > 60 else d.selector] *)
Definition selector_short (d : ImportantDeclaration) : str :=
  if (60 <? length (selector d))%nat
  then slice_to (selector d) 60 ++ lit "..."
  else selector d.

(** The listing loop at source lines 263-282. *)
Definition print_breakdown (by_category : dict (list ImportantDeclaration))
  : list effect :=
  cat_key ← sorted (keys by_category);
  let decls := decls_of by_category cat_key in
  let by_file := group_by file decls in
  [Print Rule_dashes;
   Print (Category_header (cat_name cat_key) (length decls));
   Print Rule_dashes]
  ++ (fname ← sorted (keys by_file);
      Print (File_header fname)
      :: (d ← sorted_by_line (default [] (get by_file fname));
          [Print (Declaration_line (line_number d) (property d)
                    (slice_to (value d) 30));
           Print (Selector_line (selector_short d))])).

Definition main (env : environment) : list effect :=
  if negb (styles_dir_exists env) then
    [Print (Error_not_found (styles_dir env))]
  else
    let css_files := sorted_by fst (css_files env) in
    let '(scan_effects, all_declarations) := scan_files css_files in
    let by_category := group_by category all_declarations in
    [Print (Scanning (length css_files) (styles_dir env))]
    ++ scan_effects
    ++ [Print Rule_equals; Print (Grand_total (length all_declarations));
        Print Rule_equals; Print Summary_header]
    ++ print_summary by_category
    ++ [Write_json (report_path env) (build_report all_declarations);
        Print (Report_written (report_path env));
        Print Rule_equals; Print Breakdown_header; Print Rule_equals]
    ++ print_breakdown by_category.

(** The reports a run wrote, and the files it read. *)
Definition reports_written (out : list effect) : list report :=
  omap (λ e, match e with Write_json _ r => Some r | _ => None end) out.

Definition files_read (out : list effect) : list str :=
  omap (λ e, match e with Read_file n => Some n | _ => None end) out.

(** ** Sample inputs *)

Definition one_line_rule : str :=
  lit ".rt-selected { color: red!important; }".

Definition split_brace_rule : str :=
  join_lines [ lit ".modal-content"; lit "{";
               lit "  padding: 0 !important;"; lit "}" ].

Definition two_rules : str :=
  join_lines [ lit ".x[data-subplot-idx] {"; lit "  color: red !important;";
               lit "}"; lit ".modal-content {";
               lit "  padding: 0 !important;"; lit "}" ].

Definition sample_env : environment :=
  {| styles_dir := lit "/repo/src/styles";
     report_path := lit "/repo/scripts/important-audit-report.json";
     styles_dir_exists := true;
     css_files := [(lit "b.css", two_rules); (lit "a.css", one_line_rule)] |}.

(** The order in which [categorize_selector] tries the categories. *)
Definition evaluation_order : list str :=
  [ cat_subplot_colors; cat_mode_overrides; cat_selection_states;
    cat_hover_states; cat_validation_states; cat_obsidian_resets; cat_other ].

(** The statement "the categories of [by_category] appear in evaluation
    order". *)
Definition in_evaluation_order (r : report) : Prop :=
  keys (r_by_category r)
  = filter (λ k, k ∈ keys (r_by_category r)) evaluation_order.

(** The statement "a single trailing terminator is stripped": the value
    group trimmed, without its last character when that is [;]. *)
Definition strip_one_terminator (s : str) : str :=
  if endswith (lit ";") s then slice_to s (-1) else s.

Definition single_terminator_value (g2 : str) : str :=
  strip_one_terminator (strip g2).

Definition single_terminator_claim (name content : str) : Prop :=
  ∀ n line g1 g2,
    split_lines content !! n = Some line →
    contains Regex.marker line = true →
    Regex.search line = Some (g1, g2) →
    ∀ d, d ∈ parse_css_file name content →
         line_number d = Z.of_nat n + 1 →
         value d = single_terminator_value g2.

Definition double_terminator_line : str := lit "a: b;;!important".

Definition two_rules_env : environment :=
  {| styles_dir := lit "/repo/src/styles";
     report_path := lit "/repo/scripts/important-audit-report.json";
     styles_dir_exists := true;
     css_files := [(lit "b.css", two_rules)] |}.

(** An existing styles directory without style sheets. *)
Definition empty_env : environment :=
  {| styles_dir := lit "/repo/src/styles";
     report_path := lit "/repo/scripts/important-audit-report.json";
     styles_dir_exists := true;
     css_files := [] |}.

(** No styles directory. *)
Definition missing_env : environment :=
  {| styles_dir := lit "/repo/src/styles";
     report_path := lit "/repo/scripts/important-audit-report.json";
     styles_dir_exists := false;
     css_files := [] |}.

(** ** Auxiliary definitions *)

(** What one line contributes: its number and the cleaned groups of the
    first match, when the line holds the marker and the pattern matches. *)
Definition finding (nl : Z * str) : option (Z * str * str) :=
  if contains Regex.marker nl.2
  then (λ g, (nl.1, strip g.1, clean_value g.2)) <$> Regex.search nl.2
  else None.

Definition summary (d : ImportantDeclaration) : Z * str * str :=
  (line_number d, property d, value d).

(** Every record carries the file's name and a category computed by the
    classifier. *)
Definition classified (name : str) (d : ImportantDeclaration) : Prop :=
  file d = name ∧
  category d
  = categorize_selector (selector d) (property d ++ lit ": " ++ value d).

(** The number of values grouped in a [defaultdict(list)]. *)
Definition total_length {A} (d : dict (list A)) : nat :=
  sum_list_with (λ kg, length kg.2) d.

(** [all_declarations] as [main] has it after the scan loop. *)
Definition all_declarations (env : environment)
  : list ImportantDeclaration :=
  (scan_files (sorted_by fst (css_files env))).2.

(** An effect other than writing the report. *)
Definition quiet (e : effect) : Prop :=
  match e with Write_json _ _ => False | _ => True end.

(** The position of a category in the classifier's chain of tests:
    [0] for the first test, [6] for the fallback. *)
Fixpoint index_of (k : str) (l : list str) : nat :=
  match l with
  | [] => 0
  | x :: l' => if decide (k = x) then 0 else S (index_of k l')
  end.

Definition priority (cat : str) : nat := index_of cat evaluation_order.

(** A string that [strip()] leaves as it is: it neither starts nor ends
    with white space. *)
Definition trimmed (s : str) : Prop :=
  match s with c :: _ => is_space c = false | [] => True end
  ∧ match last s with Some c => is_space c = false | None => True end.

(** The tests of [categorize_selector] on a selector, in the order of the
    chain. *)
Definition selector_tests (selector : str) : list bool :=
  [ contains (lit "[data-subplot-idx") selector;
    any_in mode_patterns selector;
    any_in state_patterns selector;
    contains (lit ":hover") selector
      || contains (lit ".scene-hover") selector
      || contains (lit ".rt-hover") selector;
    any_in validation_patterns selector;
    any_in obsidian_patterns selector ].

(** The position of the first [true], or the length of the list. *)
Fixpoint first_true (l : list bool) : nat :=
  match l with
  | [] => 0
  | true :: _ => 0
  | false :: l' => S (first_true l')
  end.

(** The lines of the two category listings of [main]. *)
Definition listing (e : effect) : Prop :=
  match e with
  | Print (Category_count _ _) | Print (Category_file_count _ _)
  | Print Blank | Print Rule_dashes | Print (Category_header _ _)
  | Print (File_header _) | Print (Declaration_line _ _ _)
  | Print (Selector_line _) => True
  | _ => False
  end.

(** The report files a run wrote, with their paths. *)
Definition writes (out : list effect) : list (str * report) :=
  omap (λ e, match e with Write_json p r => Some (p, r) | _ => None end) out.

(** The counts of the per-file lines and of the [TOTAL] lines printed. *)
Definition printed_file_counts (out : list effect) : list nat :=
  omap (λ e, match e with Print (File_count _ n) => Some n | _ => None end)
    out.

Definition printed_totals (out : list effect) : list nat :=
  omap (λ e, match e with Print (Grand_total n) => Some n | _ => None end)
    out.

(** The sum of [f] over a list. *)
Definition sumZ {A} (f : A → Z) (l : list A) : Z :=
  foldr (λ x acc, f x + acc) 0 l.

(** ** The method replacement script

    [replace_method.py]: a run on the text of [src/main.ts].  The script
    finds the first line that holds the method's signature, counts braces
    from there to the line where they balance, and puts a four-line stub
    in place of these lines. *)

Module ReplaceMethod.

Definition needle : str :=
  lit "async getSceneData(options?: GetSceneDataOptions)".

Definition new_method : list str :=
  [ lit "    async getSceneData(options?: GetSceneDataOptions): Promise<Scene[]> {";
    lit "        // Delegate to SceneDataService";
    lit "        return this.sceneDataService.getSceneData(options);";
    lit "    }" ].

(** The loop at source lines 14-17: the index of the first line that
    holds the signature, [None] when the loop ends without [break]. *)
Fixpoint find_start (lines : list str) : option nat :=
  match lines with
  | [] => None
  | line :: lines' =>
      if contains needle line then Some 0%nat else S <$> find_start lines'
  end.

(** The inner loop at source lines 32-37 over the characters of a line,
    on [(brace_count, started)]. *)
Fixpoint count_braces (line : str) (st : Z * bool) : Z * bool :=
  match line with
  | [] => st
  | char :: line' =>
      count_braces line'
        (if (char =? 123)%N then (st.1 + 1, true)
         else if (char =? 125)%N then (st.1 - 1, st.2)
         else st)
  end.

(** The loop at source lines 28-42 over the lines from index [i] on. *)
Fixpoint find_end (lines : list str) (i : nat) (st : Z * bool)
  : option nat :=
  match lines with
  | [] => None
  | line :: lines' =>
      let st' := count_braces line st in
      if st'.2 && (st'.1 =? 0) then Some i else find_end lines' (S i) st'
  end.

(** The lines the script prints, one constructor per [print] call. *)
Inductive message :=
  | Error_no_method
  | Error_no_end (started_at : nat)
  | Found (first last : nat)
  | Removing (n : nat)
  | Replaced_successfully
  | New_file (new_count old_count : nat)
  | Removed (n : Z).

(** What a run does: what it prints, the text it writes back to the file
    (if it writes), and its exit status. *)
Record result := {
  printed : list message;
  written : option str;
  exit_status : Z;
}.

Definition replace_method (content : str) : result :=
  let lines := split_lines content in
  match find_start lines with
  | None =>
      {| printed := [Error_no_method]; written := None; exit_status := 1 |}
  | Some start_idx =>
      match find_end (drop start_idx lines) start_idx (0, false) with
      | None =>
          {| printed := [Error_no_end (start_idx + 1)]; written := None;
             exit_status := 1 |}
      | Some end_idx =>
          let new_lines :=
            take start_idx lines ++ new_method ++ drop (end_idx + 1) lines in
          {| printed :=
               [ Found (start_idx + 1) (end_idx + 1);
                 Removing (end_idx - start_idx + 1);
                 Replaced_successfully;
                 New_file (length new_lines) (length lines);
                 Removed (Z.of_nat (length lines)
                          - Z.of_nat (length new_lines)) ];
             written := Some (join_lines new_lines);
             exit_status := 0 |}
      end
  end.

(** The net number of braces a line opens. *)
Definition net_braces (line : str) : Z := count 123%N line - count 125%N line.

Definition sample_source : str :=
  join_lines
    [ lit "class Plugin {";
      lit "    async getSceneData(options?: GetSceneDataOptions): Promise<Scene[]> {";
      lit "        if (x) {";
      lit "            return [];";
      lit "        }";
      lit "        return load();";
      lit "    }";
      lit "}" ].

End ReplaceMethod.

(** ** Facts about the classifier and the pattern *)

Lemma categorize_selector_cases selector pv :
  categorize_selector selector pv ∈ category_keys.
Proof.
  unfold categorize_selector, category_keys.
  repeat match goal with |- context [if ?b then _ else _] => destruct b end;
    repeat first [apply list_elem_of_here | apply list_elem_of_further].
Qed.

Example search_simple :
  Regex.search (lit ".rt-selected { color: red!important; }")
  = Some (lit "color", lit "red").
Proof. vm_compute. reflexivity. Qed.

Example search_spaces :
  Regex.search (lit "  padding : 0 !IMPORTANT;") = Some (lit "padding", lit "0 ").
Proof. vm_compute. reflexivity. Qed.

Example search_backtrack :
  Regex.search (lit "a: !important") = Some (lit "a", lit " ").
Proof. vm_compute. reflexivity. Qed.

Example search_none : Regex.search (lit "/* !important */") = None.
Proof. vm_compute. reflexivity. Qed.

(** ** Facts about the scan *)

Lemma finding_Some n line t :
  finding (n, line) = Some t →
  ∃ g1 g2, contains Regex.marker line = true
           ∧ Regex.search line = Some (g1, g2)
           ∧ t = (n, strip g1, clean_value g2).
Proof.
  unfold finding. cbn [fst snd].
  destruct (contains Regex.marker line); [|discriminate].
  destruct (Regex.search line) as [[g1 g2]|]; [|discriminate].
  intros [= <-]. eauto.
Qed.

Lemma scan_line_declarations name lines st n line :
  declarations (scan_line name lines st n line)
  = declarations st
    ++ (if contains Regex.marker line then
          match Regex.search line with
          | Some (g1, g2) =>
              [make_declaration name lines n
                 (current_selector (scan_line name lines st n line)) g1 g2]
          | None => []
          end
        else []).
Proof.
  unfold scan_line.
  destruct (track_selector lines st n line) as [[sel depth] start]; simpl.
  destruct (contains Regex.marker line); [|by rewrite app_nil_r].
  destruct (Regex.search line) as [[g1 g2]|]; [done|by rewrite app_nil_r].
Qed.

Lemma scan_lines_findings name lines todo : ∀ st,
  summary <$> declarations (scan_lines name lines st todo)
  = (summary <$> declarations st) ++ omap finding todo.
Proof.
  induction todo as [|[n line] todo IH]; intros st; simpl.
  { by rewrite app_nil_r. }
  unfold scan_lines in *. rewrite IH, scan_line_declarations, fmap_app.
  rewrite <- app_assoc. f_equal.
  unfold finding; simpl.
  destruct (contains Regex.marker line); [|done].
  by destruct (Regex.search line) as [[g1 g2]|].
Qed.

Lemma parse_findings name content :
  summary <$> parse_css_file name content
  = omap finding (enumerate 1 (split_lines content)).
Proof. unfold parse_css_file. by rewrite scan_lines_findings. Qed.

Lemma scan_lines_classified name lines todo : ∀ st,
  Forall (classified name) (declarations st) →
  Forall (classified name) (declarations (scan_lines name lines st todo)).
Proof.
  induction todo as [|[n line] todo IH]; intros st Hst; [done|].
  apply IH. rewrite scan_line_declarations. apply Forall_app; split; [done|].
  cbn [fst snd].
  destruct (contains Regex.marker line); [|constructor].
  destruct (Regex.search line) as [[g1 g2]|]; [|constructor].
  by repeat constructor.
Qed.

Lemma parse_classified name content :
  Forall (classified name) (parse_css_file name content).
Proof. apply scan_lines_classified. constructor. Qed.

Lemma omap_cons_eq {A B} (f : A → option B) x l :
  omap f (x :: l)
  = match f x with Some y => y :: omap f l | None => omap f l end.
Proof. done. Qed.

Lemma findings_length todo :
  (length (omap finding todo)
   ≤ length (filter (λ nl, contains Regex.marker nl.2 = true) todo))%nat.
Proof.
  induction todo as [|[n line] todo IH]; [done|].
  rewrite omap_cons_eq, filter_cons. unfold finding at 1. cbn [fst snd].
  destruct (contains Regex.marker line).
  - rewrite decide_True by done.
    destruct (Regex.search line); simpl; lia.
  - rewrite decide_False by done. lia.
Qed.

Lemma enumerate_marked (lines : list str) : ∀ s,
  length (filter (λ nl : Z * str, contains Regex.marker nl.2 = true)
            (enumerate s lines))
  = length (filter (λ line, contains Regex.marker line = true) lines).
Proof.
  induction lines as [|x l IH]; intros s; [done|].
  cbn [enumerate]. rewrite !filter_cons. cbn [snd].
  destruct (decide (contains Regex.marker x = true)); cbn [length];
    by rewrite IH.
Qed.

Lemma enumerate_lookup {A} (l : list A) : ∀ s n x,
  (n, x) ∈ enumerate s l ↔ s <= n ∧ l !! Z.to_nat (n - s) = Some x.
Proof.
  induction l as [|y l IH]; intros s n x; simpl.
  { split; [by intros ?%elem_of_nil|by intros [_ ?]]. }
  rewrite elem_of_cons, IH. split.
  - intros [[= -> ->]|[Hle Hl]].
    + split; [lia|]. by rewrite Z.sub_diag.
    + split; [lia|].
      replace (Z.to_nat (n - s)) with (S (Z.to_nat (n - (s + 1)))) by lia.
      done.
  - intros [Hle Hl]. destruct (decide (n = s)) as [->|Hne].
    + left. rewrite Z.sub_diag in Hl. simpl in Hl. congruence.
    + right. split; [lia|].
      replace (Z.to_nat (n - s)) with (S (Z.to_nat (n - (s + 1)))) in Hl
        by lia.
      done.
Qed.

Lemma findings_sorted todo_lines : ∀ s,
  let ns := (λ t : Z * str * str, t.1.1)
              <$> omap finding (enumerate s todo_lines) in
  StronglySorted Z.lt ns ∧ Forall (λ n, s <= n) ns.
Proof.
  induction todo_lines as [|line l IH]; intros s; simpl.
  { split; constructor. }
  destruct (IH (s + 1)) as [Hs Hge].
  assert (Forall (λ n, s < n)
            ((λ t : Z * str * str, t.1.1)
               <$> omap finding (enumerate (s + 1) l))) as Hgt.
  { eapply Forall_impl; [exact Hge|]. simpl. lia. }
  destruct (finding (s, line)) as [[[n p] v]|] eqn:Hf; simpl.
  - assert (n = s) as ->.
    { by apply finding_Some in Hf as (? & ? & _ & _ & [= -> _ _]). }
    split; [by constructor|]. constructor; [lia|].
    eapply Forall_impl; [exact Hgt|]. simpl. lia.
  - split; [done|]. eapply Forall_impl; [exact Hgt|]. simpl. lia.
Qed.

Lemma parse_line_numbers name content :
  line_number <$> parse_css_file name content
  = (λ t : Z * str * str, t.1.1)
      <$> omap finding (enumerate 1 (split_lines content)).
Proof.
  rewrite <- (parse_findings name), <- list_fmap_compose. done.
Qed.

Lemma strictly_sorted_NoDup (l : list Z) : StronglySorted Z.lt l → NoDup l.
Proof.
  induction 1 as [|x l Hs IH Hx]; constructor; [|done].
  intros Hin. rewrite Forall_forall in Hx. specialize (Hx _ Hin). lia.
Qed.

(** The look-back loops stay inside [lines]. *)
Lemma range_down_bounds start stop i :
  i ∈ range_down start stop → stop < i <= start.
Proof.
  unfold range_down. intros (k & -> & Hk%elem_of_seq)%list_elem_of_fmap. lia.
Qed.

Lemma back_lines_in_range lines n window i :
  1 <= n <= Z.of_nat (length lines) →
  i ∈ range_down (n - 2) (Z.max 0 (n - window)) →
  is_Some (getitem lines i).
Proof.
  intros Hn Hi%range_down_bounds. unfold getitem.
  rewrite (proj2 (Z.leb_le 0 i)) by lia.
  apply lookup_lt_is_Some. lia.
Qed.

(** ** Facts about strings *)

Lemma lstrip_by_spec f s :
  ∃ pre, s = pre ++ lstrip_by f s
         ∧ Forall (λ c, f c = true) pre
         ∧ match lstrip_by f s with c :: _ => f c = false | [] => True end.
Proof.
  induction s as [|c s (pre & Heq & Hpre & Hhd)]; simpl.
  { by exists []. }
  destruct (f c) eqn:Hc.
  - exists (c :: pre). split; [by rewrite Heq at 1|]. split; [by constructor|done].
  - by exists [].
Qed.

Lemma rstrip_by_spec f s :
  ∃ suf, s = rstrip_by f s ++ suf
         ∧ Forall (λ c, f c = true) suf
         ∧ match last (rstrip_by f s) with
           | Some c => f c = false
           | None => True
           end.
Proof.
  unfold rstrip_by.
  destruct (lstrip_by_spec f (reverse s)) as (pre & Heq & Hpre & Hhd).
  exists (reverse pre). split; [|split].
  - rewrite <- reverse_app, <- Heq. by rewrite reverse_involutive.
  - by apply Forall_reverse.
  - destruct (lstrip_by f (reverse s)) as [|c t]; [done|].
    by rewrite reverse_cons, last_snoc.
Qed.

Lemma leb_cons x a y b :
  leb (x :: a) (y :: b) = true ↔ (x < y)%N ∨ x = y ∧ leb a b = true.
Proof.
  simpl. rewrite orb_true_iff, andb_true_iff, N.ltb_lt, N.eqb_eq. done.
Qed.

#[local] Instance str_le_total : Total str_le.
Proof.
  unfold str_le. intros a. induction a as [|x a IH]; intros [|y b].
  - by left.
  - by left.
  - by right.
  - rewrite !Is_true_true, !leb_cons.
    destruct (IH b) as [H|H]; apply Is_true_true in H;
      destruct (N.lt_trichotomy x y) as [?|[?|?]]; auto.
Qed.

#[local] Instance str_le_trans : Transitive str_le.
Proof.
  unfold str_le. intros a. induction a as [|x a IH]; intros [|y b] [|z c];
    try done.
  rewrite !Is_true_true, !leb_cons. intros [?|[-> Hab]] [?|[-> Hbc]]; auto.
  - left. lia.
  - right. split; [done|].
    apply Is_true_true. eapply IH; apply Is_true_true; eassumption.
Qed.

#[local] Instance str_le_antisymm : AntiSymm (=) str_le.
Proof.
  unfold str_le. intros a. induction a as [|x a IH]; intros [|y b]; try done.
  rewrite !Is_true_true, !leb_cons. intros [?|[-> Hab]] [?|[? Hba]]; try lia.
  f_equal. apply IH; by apply Is_true_true.
Qed.

(** ** Facts about dicts and grouping *)

Section dict_facts.
Context {V : Type}.
Implicit Types (d : dict V) (k : str) (v : V).

Lemma get_None d k : get d k = None ↔ k ∉ keys d.
Proof.
  unfold keys. induction d as [|[k' v'] d IH]; simpl.
  { split; [intros _ ?%elem_of_nil; done|done]. }
  rewrite not_elem_of_cons. destruct (decide (k = k')); [|by rewrite IH; tauto].
  split; [done|]. by intros [? _].
Qed.

Lemma get_Some d k v : get d k = Some v → (k, v) ∈ d.
Proof.
  induction d as [|[k' v'] d IH]; simpl; [done|].
  destruct (decide (k = k')) as [->|]; [intros [= ->]; left|right; auto].
Qed.

Lemma keys_set_present d k v : k ∈ keys d → keys (set d k v) = keys d.
Proof.
  unfold keys. induction d as [|[k' v'] d IH]; intros Hk.
  { by apply elem_of_nil in Hk. }
  cbn [set]. destruct (decide (k = k')) as [->|Hne]; [done|].
  rewrite !fmap_cons. f_equal. apply IH.
  rewrite fmap_cons in Hk. apply elem_of_cons in Hk as [?|?]; done.
Qed.

Lemma set_fresh d k v : k ∉ keys d → set d k v = d ++ [(k, v)].
Proof.
  unfold keys. induction d as [|[k' v'] d IH]; simpl; [done|].
  rewrite not_elem_of_cons. intros [Hne Hk].
  rewrite decide_False by done. by rewrite IH.
Qed.

Lemma keys_set d k v :
  keys (set d k v) = if decide (k ∈ keys d) then keys d else keys d ++ [k].
Proof.
  destruct (decide (k ∈ keys d)) as [Hin|Hin].
  - by apply keys_set_present.
  - rewrite set_fresh by done. unfold keys. by rewrite fmap_app.
Qed.

Lemma keys_set_NoDup d k v : NoDup (keys d) → NoDup (keys (set d k v)).
Proof.
  intros Hd. rewrite keys_set. destruct (decide _) as [|Hk]; [done|].
  apply NoDup_app. split; [done|]. split; [|apply NoDup_singleton].
  intros x Hx ->%list_elem_of_singleton. done.
Qed.

Lemma elem_of_keys_set d k v k' :
  k' ∈ keys (set d k v) ↔ k' ∈ keys d ∨ k' = k.
Proof.
  rewrite keys_set. destruct (decide _) as [Hk|Hk].
  - split; [auto|]. by intros [?| ->].
  - by rewrite elem_of_app, list_elem_of_singleton.
Qed.

Lemma foldl_set_fresh (f : str → V) ks : ∀ d,
  NoDup ks → (∀ k, k ∈ ks → k ∉ keys d) →
  foldl (λ rep k, set rep k (f k)) d ks = d ++ ((λ k, (k, f k)) <$> ks).
Proof.
  induction ks as [|k ks IH]; intros d Hnd Hfresh; simpl.
  { by rewrite app_nil_r. }
  apply NoDup_cons in Hnd as [Hk Hnd].
  rewrite set_fresh by (apply Hfresh; left).
  rewrite IH; [by rewrite <- app_assoc|done|].
  intros k' Hk'. unfold keys. rewrite fmap_app, not_elem_of_app. split.
  - apply Hfresh. by right.
  - simpl. rewrite list_elem_of_singleton. intros ->. done.
Qed.

Lemma get_keys_values d (dflt : V) :
  NoDup (keys d) → (λ k, default dflt (get d k)) <$> keys d = values d.
Proof.
  unfold keys, values. induction d as [|[k v] d IH]; [done|].
  rewrite !fmap_cons. cbn [fst snd get]. intros [Hk Hnd]%NoDup_cons.
  rewrite decide_True by done. cbn [default from_option]. f_equal.
  rewrite <- IH by done. apply list_fmap_ext. intros i k' Hk'.
  cbn beta. rewrite decide_False; [done|]. intros ->. apply Hk.
  apply list_elem_of_lookup. eauto.
Qed.

End dict_facts.

Section group_facts.
Context {A : Type} (key : A → str).
Implicit Types (d : dict (list A)) (l : list A).

Lemma dd_append_cons k' (g : list A) d k x :
  dd_append ((k', g) :: d) k x
  = if decide (k = k') then (k', g ++ [x]) :: d
    else (k', g) :: dd_append d k x.
Proof. unfold dd_append. simpl. by destruct (decide (k = k')). Qed.

Lemma dd_append_total_length d k x :
  total_length (dd_append d k x) = S (total_length d).
Proof.
  unfold total_length. induction d as [|[k' g] d IH].
  { done. }
  rewrite dd_append_cons. destruct (decide (k = k')); csimpl.
  - rewrite length_app. simpl. lia.
  - rewrite IH. lia.
Qed.

Lemma dd_append_nonempty d k x :
  Forall (λ g, g ≠ []) (values d) →
  Forall (λ g, g ≠ []) (values (dd_append d k x)).
Proof.
  unfold values. induction d as [|[k' g] d IH]; intros Hd.
  { repeat constructor. done. }
  rewrite dd_append_cons. rewrite fmap_cons in Hd.
  apply Forall_cons in Hd as [Hg Hd].
  destruct (decide (k = k')); rewrite fmap_cons; constructor; auto.
  by destruct g.
Qed.

Lemma group_by_from d l :
  NoDup (keys d) → Forall (λ g, g ≠ []) (values d) →
  let d' := foldl (λ d x, dd_append d (key x) x) d l in
  NoDup (keys d')
  ∧ (∀ k, k ∈ keys d' ↔ k ∈ keys d ∨ k ∈ key <$> l)
  ∧ total_length d' = (total_length d + length l)%nat
  ∧ Forall (λ g, g ≠ []) (values d').
Proof.
  revert d. induction l as [|x l IH]; intros d Hnd Hne; simpl.
  { split; [done|]. split; [|split; [lia|done]].
    intros k. split; [auto|]. by intros [?|?%elem_of_nil]. }
  destruct (IH (dd_append d (key x) x)) as (H1 & H2 & H3 & H4).
  { by apply keys_set_NoDup. }
  { by apply dd_append_nonempty. }
  split; [done|]. split; [|split; [|done]].
  - intros k. rewrite H2. unfold dd_append. rewrite elem_of_keys_set.
    rewrite elem_of_cons. tauto.
  - rewrite H3, dd_append_total_length. lia.
Qed.

Lemma group_by_keys_NoDup l : NoDup (keys (group_by key l)).
Proof. apply (group_by_from [] l); constructor. Qed.

Lemma group_by_keys l k : k ∈ keys (group_by key l) ↔ k ∈ key <$> l.
Proof.
  destruct (group_by_from [] l) as (_ & H & _); [constructor..|].
  unfold group_by. rewrite H. split; [|auto]. by intros [?%elem_of_nil|?].
Qed.

Lemma group_by_total_length l : total_length (group_by key l) = length l.
Proof. apply (group_by_from [] l); constructor. Qed.

Lemma group_by_nonempty l : Forall (λ g, g ≠ []) (values (group_by key l)).
Proof. apply (group_by_from [] l); constructor. Qed.

Lemma dd_incr_cons k' (n : nat) (c : dict nat) k :
  dd_incr ((k', n) :: c) k
  = if decide (k = k') then (k', (n + 1)%nat) :: c
    else (k', n) :: dd_incr c k.
Proof. unfold dd_incr. simpl. by destruct (decide (k = k')). Qed.

Lemma dd_incr_sum (c : dict nat) k :
  sum_list_with snd (dd_incr c k) = S (sum_list_with snd c).
Proof.
  induction c as [|[k' n] c IH]; [done|].
  rewrite dd_incr_cons. destruct (decide (k = k')); csimpl; lia.
Qed.

Lemma count_by_sum l : sum_list_with snd (count_by key l) = length l.
Proof.
  unfold count_by.
  enough (∀ c : dict nat,
            sum_list_with snd (foldl (λ c x, dd_incr c (key x)) c l)
            = (sum_list_with snd c + length l)%nat) as H by apply (H []).
  induction l as [|x l IH]; intros c; csimpl; [lia|].
  rewrite IH, dd_incr_sum. lia.
Qed.

End group_facts.

(** ** Facts about the run *)

Lemma quiet_reports out : Forall quiet out → reports_written out = [].
Proof.
  unfold reports_written. induction 1 as [|e out He _ IH]; [done|].
  rewrite omap_cons_eq. by destruct e.
Qed.

Lemma reports_written_app out1 out2 :
  reports_written (out1 ++ out2) = reports_written out1 ++ reports_written out2.
Proof. apply omap_app. Qed.

Lemma scan_files_from files : ∀ acc,
  let step := λ (acc : list effect * list ImportantDeclaration)
                (f : str * str),
    (acc.1 ++ [Read_file f.1;
               Print (File_count f.1 (length (parse_css_file f.1 f.2)))],
     acc.2 ++ parse_css_file f.1 f.2) in
  (foldl step acc files).2
  = acc.2 ++ (files ≫= λ f, parse_css_file f.1 f.2)
  ∧ (Forall quiet acc.1 → Forall quiet (foldl step acc files).1)
  ∧ files_read (foldl step acc files).1 = files_read acc.1 ++ files.*1.
Proof.
  induction files as [|f files IH]; intros acc; csimpl.
  { by rewrite !app_nil_r. }
  destruct (IH (acc.1 ++ [Read_file f.1;
                 Print (File_count f.1 (length (parse_css_file f.1 f.2)))],
                acc.2 ++ parse_css_file f.1 f.2)) as (H1 & H2 & H3).
  cbn [fst snd] in *. split; [|split].
  - by rewrite H1, <- app_assoc.
  - intros Hq. apply H2. apply Forall_app. split; [done|].
    by repeat constructor.
  - rewrite H3. unfold files_read. rewrite omap_app, <- app_assoc. done.
Qed.

Lemma scan_files_declarations files :
  (scan_files files).2 = files ≫= λ f, parse_css_file f.1 f.2.
Proof. apply (scan_files_from files ([], [])). Qed.

Lemma scan_files_quiet files : Forall quiet (scan_files files).1.
Proof. apply (scan_files_from files ([], [])). constructor. Qed.

Lemma scan_files_read files : files_read (scan_files files).1 = files.*1.
Proof. apply (scan_files_from files ([], [])). Qed.

Lemma print_summary_quiet by_category : Forall quiet (print_summary by_category).
Proof.
  unfold print_summary. apply Forall_bind, Forall_forall. intros k _.
  cbn. constructor; [done|]. apply Forall_app. split; [|by repeat constructor].
  apply Forall_fmap, Forall_forall. done.
Qed.

Lemma print_breakdown_quiet by_category :
  Forall quiet (print_breakdown by_category).
Proof.
  unfold print_breakdown. apply Forall_bind, Forall_forall. intros k _.
  cbn. repeat (constructor; [done|]).
  apply Forall_bind, Forall_forall. intros fname _.
  cbn. constructor; [done|].
  apply Forall_bind, Forall_forall. intros d _. by repeat constructor.
Qed.

Lemma main_reports env :
  reports_written (main env)
  = if styles_dir_exists env then [build_report (all_declarations env)]
    else [].
Proof.
  unfold main, all_declarations.
  destruct (styles_dir_exists env); [|done]. cbn [negb].
  pose proof (scan_files_quiet (sorted_by fst (css_files env))) as Hq.
  destruct (scan_files (sorted_by fst (css_files env))) as [effs all].
  cbn [fst snd] in *. rewrite !reports_written_app.
  rewrite (quiet_reports effs) by done.
  rewrite (quiet_reports (print_summary _)) by apply print_summary_quiet.
  rewrite (quiet_reports (print_breakdown _)) by apply print_breakdown_quiet.
  done.
Qed.

Lemma written_report env r :
  r ∈ reports_written (main env) →
  styles_dir_exists env = true ∧ r = build_report (all_declarations env).
Proof.
  rewrite main_reports. destruct (styles_dir_exists env).
  - by intros ->%list_elem_of_singleton.
  - by intros ?%elem_of_nil.
Qed.

Lemma all_declarations_classified env :
  Forall (λ d, category d ∈ category_keys) (all_declarations env).
Proof.
  unfold all_declarations. rewrite scan_files_declarations.
  apply Forall_bind, Forall_forall. intros f _. cbn.
  eapply Forall_impl; [apply parse_classified|].
  intros d [_ ->]. apply categorize_selector_cases.
Qed.

(** ** Facts about the report *)

Lemma sorted_Permutation l : sorted l ≡ₚ l.
Proof. apply merge_sort_Permutation. Qed.

Lemma sorted_StronglySorted l : StronglySorted str_le (sorted l).
Proof. apply StronglySorted_merge_sort; apply _. Qed.

Lemma build_report_by_category all :
  r_by_category (build_report all)
  = (λ k, (k, category_entry_of (group_by category all) k))
      <$> sorted (keys (group_by category all)).
Proof.
  unfold build_report, add_category. cbn [r_by_category].
  rewrite foldl_set_fresh; [done| |].
  - rewrite sorted_Permutation. apply group_by_keys_NoDup.
  - intros k _. apply not_elem_of_nil.
Qed.

Lemma build_report_keys all :
  keys (r_by_category (build_report all))
  = sorted (keys (group_by category all)).
Proof.
  rewrite build_report_by_category. unfold keys.
  rewrite <- list_fmap_compose. apply list_fmap_id.
Qed.

Lemma StronglySorted_filter {A} (R : relation A) (P : A → Prop)
    `{∀ x, Decision (P x)} l :
  StronglySorted R l → StronglySorted R (filter P l).
Proof.
  induction 1 as [|x l Hs IH Hx]; [constructor|].
  rewrite filter_cons. destruct (decide (P x)); [|done].
  constructor; [done|]. apply Forall_forall.
  intros y [_ Hy]%list_elem_of_filter. rewrite Forall_forall in Hx. auto.
Qed.

Lemma category_keys_sorted : StronglySorted str_le category_keys.
Proof. by apply (bool_decide_unpack _). Qed.

Lemma category_keys_NoDup : NoDup category_keys.
Proof. by apply (bool_decide_unpack _). Qed.

Lemma search_leftmost s r :
  Regex.search s = Some r →
  ∃ i, Regex.match_here (drop i s) = Some r
       ∧ ∀ j, (j < i)%nat → Regex.match_here (drop j s) = None.
Proof.
  induction s as [|c s IH]; cbn [Regex.search].
  { destruct (Regex.match_here []) eqn:Hm; [|done].
    intros [= ->]. exists 0%nat. split; [done|lia]. }
  destruct (Regex.match_here (c :: s)) eqn:Hm.
  - intros [= ->]. exists 0%nat. split; [done|lia].
  - intros (i & Hi & Hlt)%IH. exists (S i). split; [done|].
    intros [|j] Hj; [done|]. apply Hlt. lia.
Qed.

Lemma filter_key_length {A} (f : A → Z) n (l : list A) :
  NoDup (f <$> l) → (length (filter (λ x, f x = n) l) ≤ 1)%nat.
Proof.
  induction l as [|x l IH]; [intros _; cbn; lia|].
  rewrite fmap_cons, NoDup_cons, filter_cons. intros [Hx Hnd].
  destruct (decide (f x = n)) as [<-|]; [|auto].
  destruct (filter (λ y, f y = f x) l) as [|y t] eqn:Hf; [cbn; lia|].
  assert (y ∈ filter (λ y, f y = f x) l) as [Heq Hy]%list_elem_of_filter
    by (rewrite Hf; left).
  destruct Hx. rewrite <- Heq. by apply list_elem_of_fmap_2.
Qed.

Lemma sum_list_with_fmap {A B} (f : B → nat) (g : A → B) (l : list A) :
  sum_list_with f (g <$> l) = sum_list_with (f ∘ g) l.
Proof. induction l as [|x l IH]; csimpl; [done|]. by rewrite IH. Qed.

Lemma get_present {V} (d : dict V) k :
  k ∈ keys d → ∃ v, get d k = Some v ∧ v ∈ values d.
Proof.
  intros Hk. destruct (get d k) as [v|] eqn:Hg.
  - exists v. split; [done|]. apply get_Some in Hg.
    unfold values. apply list_elem_of_fmap. by exists (k, v).
  - by apply get_None in Hg.
Qed.

Lemma by_category_counts all :
  sum_list_with (λ ke, e_count ke.2) (r_by_category (build_report all))
  = length all.
Proof.
  rewrite build_report_by_category, sum_list_with_fmap.
  rewrite sorted_Permutation.
  transitivity
    (sum_list_with length
       ((λ k, default [] (get (group_by category all) k))
          <$> keys (group_by category all))).
  { by rewrite sum_list_with_fmap. }
  rewrite get_keys_values by apply group_by_keys_NoDup.
  unfold values. rewrite sum_list_with_fmap.
  apply (group_by_total_length category all).
Qed.

(** ** The scenarios *)

(** C1: the scenario expects, for the one-line file
    [.rt-selected { color: red!important; }], one record with property
    [color], value [red], selector [.rt-selected] and category
    [4_selection_states].  The scan yields one record with that property
    and value, but with an empty selector and category [7_other]: the
    closing brace on the same line clears [current_selector] before the
    record is built, and the look-back has no earlier line to read. *)
Theorem one_line_rule_scan :
  parse_css_file (lit "a.css") one_line_rule
  = [ {| file := lit "a.css"; line_number := 1; selector := [];
         property := lit "color"; value := lit "red";
         category := cat_other |} ].
Proof. vm_compute. reflexivity. Qed.

(** C2: the scenario expects, for the file [.modal-content], [{],
    [  padding: 0 !important;], [}], one record with selector
    [.modal-content] and category [1_obsidian_resets].  The scan yields one
    record with an empty selector and category [7_other]: at line 2 the
    look-back runs over [range(0, 0, -1)], which is empty, so the first
    line of the file is never read. *)
Theorem split_brace_rule_scan :
  parse_css_file (lit "a.css") split_brace_rule
  = [ {| file := lit "a.css"; line_number := 3; selector := [];
         property := lit "padding"; value := lit "0";
         category := cat_other |} ].
Proof. vm_compute. reflexivity. Qed.

(** The same rule one line further down is recovered: the look-back then
    runs over [range(1, 0, -1)]. *)
Example split_brace_rule_after_blank :
  parse_css_file (lit "a.css") (newline :: split_brace_rule)
  = [ {| file := lit "a.css"; line_number := 4;
         selector := lit ".modal-content";
         property := lit "padding"; value := lit "0";
         category := cat_obsidian_resets |} ].
Proof. vm_compute. reflexivity. Qed.

(** A rule that closes on a later line keeps its selector. *)
Example two_rules_scan :
  (λ d, (line_number d, selector d, category d))
    <$> parse_css_file (lit "b.css") two_rules
  = [ (2, lit ".x[data-subplot-idx]", cat_subplot_colors);
      (5, lit ".modal-content", cat_obsidian_resets) ].
Proof. vm_compute. reflexivity. Qed.

(** ** The classifier *)

(** C4: [categorize_selector] is a total function that depends on the
    selector only; its result is always one of the seven category keys,
    which are pairwise distinct, and for the empty selector it is
    [7_other]. *)
Theorem categorize_selector_total selector property_value :
  categorize_selector selector property_value ∈ category_keys
  ∧ categorize_selector selector property_value
    = categorize_selector selector []
  ∧ categorize_selector [] property_value = cat_other
  ∧ NoDup category_keys ∧ length category_keys = 7%nat.
Proof.
  split; [apply categorize_selector_cases|].
  split; [done|]. split; [done|]. split; [apply category_keys_NoDup|done].
Qed.

(** ** The scan *)

(** C5, as amended: for a line that holds the marker and matches the
    pattern with value group [g2], the scan has a record for that line,
    and its value is [g2] trimmed, then without its whole run of trailing
    [;] (every one of them, not just one), then trimmed again. *)
Theorem value_strips_every_terminator name content n line g1 g2 :
  split_lines content !! n = Some line →
  contains Regex.marker line = true →
  Regex.search line = Some (g1, g2) →
  (∃ d, d ∈ parse_css_file name content ∧ line_number d = Z.of_nat n + 1)
  ∧ ∀ d, d ∈ parse_css_file name content →
         line_number d = Z.of_nat n + 1 →
         value d = strip (rstrip_chars (lit ";") (strip g2))
         ∧ ∃ v k, strip g2 = v ++ replicate k 59%N
                  ∧ last v ≠ Some 59%N
                  ∧ value d = strip v.
Proof.
  intros Hline Hmark Hsearch.
  assert (finding (Z.of_nat n + 1, line)
          = Some (Z.of_nat n + 1, strip g1, clean_value g2)) as Hf.
  { unfold finding. cbn [fst snd]. by rewrite Hmark, Hsearch. }
  assert ((Z.of_nat n + 1, line) ∈ enumerate 1 (split_lines content)) as Hin.
  { apply enumerate_lookup. split; [lia|].
    by replace (Z.to_nat (Z.of_nat n + 1 - 1)) with n by lia. }
  split.
  - assert ((Z.of_nat n + 1, strip g1, clean_value g2)
            ∈ summary <$> parse_css_file name content) as Hs.
    { rewrite parse_findings. apply list_elem_of_omap. eauto. }
    apply list_elem_of_fmap in Hs as (d & [= Hn _ _] & Hd). eauto.
  - intros d Hd Hn.
    assert (summary d ∈ omap finding (enumerate 1 (split_lines content)))
      as ([n' line'] & Hin' & Hf')%list_elem_of_omap.
    { rewrite <- (parse_findings name). by apply list_elem_of_fmap_2. }
    assert (n' = Z.of_nat n + 1) as ->.
    { apply finding_Some in Hf' as (? & ? & _ & _ & [= ? _ _]). lia. }
    assert (line' = line) as ->.
    { apply enumerate_lookup in Hin' as [_ Hl'].
      replace (Z.to_nat (Z.of_nat n + 1 - 1)) with n in Hl' by lia.
      congruence. }
    rewrite Hf in Hf'. injection Hf' as _ _ Hv.
    split; [done|].
    destruct (rstrip_by_spec (λ c, bool_decide (c ∈ lit ";")) (strip g2))
      as (suf & Heq & Hsuf & Hlast).
    exists (rstrip_chars (lit ";") (strip g2)), (length suf).
    split; [|split; [|done]].
    + rewrite Heq at 1. f_equal. clear Heq.
      induction Hsuf as [|c suf Hc _ IH]; [done|]. cbn [length replicate].
      f_equal; [|exact IH].
      apply bool_decide_eq_true in Hc. by apply list_elem_of_singleton in Hc.
    + unfold rstrip_chars. intros Hl. rewrite Hl in Hlast. done.
Qed.

Lemma value_strips_every_terminator_sample :
  (∃ d, d ∈ parse_css_file (lit "a.css") double_terminator_line
        ∧ line_number d = 1)
  ∧ ∀ d, d ∈ parse_css_file (lit "a.css") double_terminator_line →
         line_number d = 1 →
         value d = strip (rstrip_chars (lit ";") (strip (lit "b;;")))
         ∧ ∃ v k, strip (lit "b;;") = v ++ replicate k 59%N
                  ∧ last v ≠ Some 59%N
                  ∧ value d = strip v.
Proof.
  apply (value_strips_every_terminator (lit "a.css") double_terminator_line
           0 double_terminator_line (lit "a") (lit "b;;"));
    vm_compute; reflexivity.
Defined.

(** C5, as stated, fails on [a: b;;!important]: the value group is [b;;],
    removing a single terminator would leave [b;], and the record's value
    is [b]. *)
Lemma single_terminator_fails :
  ¬ single_terminator_claim (lit "a.css") double_terminator_line.
Proof.
  intros H.
  specialize (H 0%nat double_terminator_line (lit "a") (lit "b;;")
                eq_refl eq_refl eq_refl
                {| file := lit "a.css"; line_number := 1; selector := [];
                   property := lit "a"; value := lit "b";
                   category := cat_other |}).
  vm_compute in H. specialize (H (list_elem_of_here _ _) eq_refl).
  discriminate H.
Qed.

(** C6: the scan of a file produces at most as many records as the file
    has lines that contain [!important]. *)
Theorem records_at_most_marked_lines name content :
  (length (parse_css_file name content)
   ≤ length (filter (λ line, contains Regex.marker line = true)
               (split_lines content)))%nat.
Proof.
  pose proof (findings_length (enumerate 1 (split_lines content))) as H.
  rewrite enumerate_marked in H.
  by rewrite <- (length_fmap summary), parse_findings.
Qed.

(** C9: the scan produces at most one record per line, so the line
    numbers of a file's records are strictly increasing; the record of a
    line carries the groups of the first (leftmost) match of the pattern
    on that line. *)
Theorem one_record_per_line name content :
  StronglySorted Z.lt (line_number <$> parse_css_file name content)
  ∧ (∀ n, (length (filter (λ d, line_number d = n)
                     (parse_css_file name content)) ≤ 1)%nat)
  ∧ ∀ d, d ∈ parse_css_file name content →
      ∃ line g1 g2 i,
        1 <= line_number d
        ∧ split_lines content !! Z.to_nat (line_number d - 1) = Some line
        ∧ Regex.match_here (drop i line) = Some (g1, g2)
        ∧ (∀ j, (j < i)%nat → Regex.match_here (drop j line) = None)
        ∧ property d = strip g1
        ∧ value d = clean_value g2.
Proof.
  assert (StronglySorted Z.lt (line_number <$> parse_css_file name content))
    as Hsorted.
  { rewrite parse_line_numbers. apply findings_sorted. }
  split; [done|]. split.
  - intros n. by apply filter_key_length, strictly_sorted_NoDup.
  - intros d Hd.
    assert (summary d ∈ omap finding (enumerate 1 (split_lines content)))
      as ([n line] & Hin & Hf)%list_elem_of_omap.
    { rewrite <- (parse_findings name). by apply list_elem_of_fmap_2. }
    apply enumerate_lookup in Hin as [Hn Hline].
    apply finding_Some in Hf as (g1 & g2 & _ & Hs & [= <- Hp Hv]).
    destruct (search_leftmost _ _ Hs) as (i & Hi & Hlt).
    exists line, g1, g2, i. done.
Qed.

(** Two marked declarations on one line give one record, the first. *)
Example two_declarations_one_line :
  summary
    <$> parse_css_file (lit "a.css")
          (lit "a { color: red !important; margin: 0 !important; }")
  = [ (1, lit "color", lit "red") ].
Proof. vm_compute. reflexivity. Qed.

(** ** The report *)

(** C3, as amended: the categories of [by_category] appear in ascending
    order of their keys, [1_obsidian_resets] first and [7_other] last,
    which is neither discovery order nor the classifier's evaluation
    order; exactly the categories of some record are listed. *)
Theorem by_category_key_order env r :
  r ∈ reports_written (main env) →
  keys (r_by_category r)
  = filter (λ k, k ∈ category <$> r_declarations r) category_keys.
Proof.
  intros [_ ->]%written_report. rewrite build_report_keys.
  cbn [r_declarations build_report].
  apply (StronglySorted_unique str_le).
  - apply sorted_StronglySorted.
  - apply StronglySorted_filter, category_keys_sorted.
  - rewrite sorted_Permutation. apply NoDup_Permutation.
    + apply group_by_keys_NoDup.
    + apply NoDup_filter, category_keys_NoDup.
    + intros k. rewrite group_by_keys, list_elem_of_filter.
      split; [|tauto]. intros Hk. split; [done|].
      apply list_elem_of_fmap in Hk as (d & -> & Hd).
      pose proof (all_declarations_classified env) as Hall.
      rewrite Forall_forall in Hall. auto.
Qed.

Lemma by_category_key_order_sample :
  build_report (all_declarations two_rules_env)
    ∈ reports_written (main two_rules_env)
  ∧ keys (r_by_category (build_report (all_declarations two_rules_env)))
    = filter (λ k, k ∈ category
                       <$> r_declarations
                             (build_report (all_declarations two_rules_env)))
        category_keys.
Proof.
  assert (build_report (all_declarations two_rules_env)
            ∈ reports_written (main two_rules_env)) as H.
  { vm_compute. apply list_elem_of_here. }
  split; [exact H|]. exact (by_category_key_order two_rules_env _ H).
Defined.

(** C3, as stated, fails on a directory whose one file holds a
    subplot-colour rule followed by a modal rule: the report lists
    [1_obsidian_resets] before [6_subplot_colors]. *)
Lemma evaluation_order_not_kept :
  ¬ Forall in_evaluation_order (reports_written (main two_rules_env)).
Proof.
  rewrite main_reports. cbn [styles_dir_exists two_rules_env].
  intros [H _]%Forall_cons. unfold in_evaluation_order in H.
  vm_compute in H. discriminate H.
Qed.

(** C7: in the report a run writes, [total] is the sum of the
    per-category counts, and each category's count is the sum of the
    lengths of its per-file lists and of the per-file counts that the
    summary prints. *)
Theorem report_totals env r :
  r ∈ reports_written (main env) →
  r_total r = sum_list_with (λ ke, e_count ke.2) (r_by_category r)
  ∧ Forall (λ ke,
      e_count ke.2 = sum_list_with (λ fl, length fl.2) (e_files ke.2)
      ∧ e_count ke.2
        = sum_list_with snd
            (count_by file
               (decls_of (group_by category (r_declarations r)) ke.1)))
      (r_by_category r).
Proof.
  intros [_ ->]%written_report. split.
  - by rewrite by_category_counts.
  - rewrite build_report_by_category. cbn [r_declarations build_report].
    apply Forall_fmap, Forall_forall. intros k _.
    cbn [compose fst snd e_count e_files category_entry_of]. split.
    + symmetry. apply (group_by_total_length file).
    + symmetry. apply count_by_sum.
Qed.

Lemma report_totals_sample :
  build_report (all_declarations sample_env)
    ∈ reports_written (main sample_env)
  ∧ r_total (build_report (all_declarations sample_env))
    = sum_list_with (λ ke, e_count ke.2)
        (r_by_category (build_report (all_declarations sample_env))).
Proof.
  assert (build_report (all_declarations sample_env)
            ∈ reports_written (main sample_env)) as H.
  { vm_compute. apply list_elem_of_here. }
  split; [exact H|]. exact (proj1 (report_totals sample_env _ H)).
Defined.

(** C8: when the styles directory does not exist, the run prints the
    error line and nothing else: it reads no file and writes no report. *)
Theorem missing_directory_stops env :
  styles_dir_exists env = false →
  main env = [Print (Error_not_found (styles_dir env))]
  ∧ files_read (main env) = []
  ∧ reports_written (main env) = [].
Proof. unfold main. intros ->. done. Qed.

Lemma missing_directory_stops_sample :
  styles_dir_exists missing_env = false
  ∧ main missing_env = [Print (Error_not_found (styles_dir missing_env))]
  ∧ files_read (main missing_env) = []
  ∧ reports_written (main missing_env) = [].
Proof.
  split; [reflexivity|]. apply (missing_directory_stops missing_env).
  reflexivity.
Defined.

(** C10: [by_category] has an entry exactly for the categories of some
    record, each with a positive count; with no input file it is empty. *)
Theorem by_category_only_present env r :
  r ∈ reports_written (main env) →
  (∀ k, k ∈ keys (r_by_category r)
        ↔ ∃ d, d ∈ r_declarations r ∧ category d = k)
  ∧ Forall (λ ke, (0 < e_count ke.2)%nat) (r_by_category r)
  ∧ (css_files env = [] → r_by_category r = [] ∧ r_total r = 0%nat).
Proof.
  intros [_ ->]%written_report. split; [|split].
  - intros k. rewrite build_report_keys, sorted_Permutation, group_by_keys.
    cbn [r_declarations build_report]. rewrite list_elem_of_fmap.
    split; intros (d & ? & ?); eauto.
  - rewrite build_report_by_category.
    apply Forall_fmap, Forall_forall. intros k Hk.
    rewrite sorted_Permutation in Hk.
    cbn [compose snd e_count category_entry_of]. unfold decls_of.
    apply get_present in Hk as (g & -> & Hg).
    pose proof (group_by_nonempty category (all_declarations env)) as Hne.
    rewrite Forall_forall in Hne. specialize (Hne _ Hg).
    destruct g; [done|]. cbn. lia.
  - unfold all_declarations. intros ->. done.
Qed.

Lemma by_category_only_present_sample :
  build_report (all_declarations empty_env)
    ∈ reports_written (main empty_env)
  ∧ r_by_category (build_report (all_declarations empty_env)) = []
  ∧ r_total (build_report (all_declarations empty_env)) = 0%nat.
Proof.
  assert (build_report (all_declarations empty_env)
            ∈ reports_written (main empty_env)) as H.
  { vm_compute. apply list_elem_of_here. }
  split; [exact H|].
  exact (proj2 (proj2 (by_category_only_present _ _ H)) eq_refl).
Defined.

(** ** More about strings *)

Lemma startswith_app p s b :
  startswith p s = true → startswith p (s ++ b) = true.
Proof.
  revert s. induction p as [|x p IH]; intros [|y s]; cbn; try done.
  rewrite !andb_true_iff. intros [? ?]. auto.
Qed.

Lemma contains_app_r p s b : contains p s = true → contains p (s ++ b) = true.
Proof.
  induction s as [|y s IH]; cbn [contains app].
  - rewrite orb_false_r. destruct p; [destruct b|]; done.
  - rewrite !orb_true_iff. intros [H|H]; [left|right; auto].
    by apply (startswith_app p (y :: s) b).
Qed.

Lemma contains_app_l p a s : contains p s = true → contains p (a ++ s) = true.
Proof.
  intros H. induction a as [|x a IH]; [done|].
  cbn [contains app]. rewrite IH. apply orb_true_r.
Qed.

Lemma contains_embedded p a s b :
  contains p s = true → contains p (a ++ s ++ b) = true.
Proof. intros H. by apply contains_app_l, contains_app_r. Qed.

Lemma any_in_embedded ps a s b :
  any_in ps s = true → any_in ps (a ++ s ++ b) = true.
Proof.
  unfold any_in. rewrite !existsb_exists. intros (p & Hp & Hc).
  exists p. split; [done|]. by apply contains_embedded.
Qed.

Lemma contains_head c p s : contains (c :: p) s = true → c ∈ s.
Proof.
  induction s as [|y s IH]; cbn [contains startswith]; [done|].
  rewrite orb_true_iff, andb_true_iff, N.eqb_eq.
  intros [[-> _]|H]; [left|right; auto].
Qed.

Lemma contains_char c s : contains [c] s = true ↔ c ∈ s.
Proof.
  split; [apply contains_head|].
  induction 1 as [y s|y z s _ IH]; cbn [contains startswith].
  - rewrite N.eqb_refl. by destruct s.
  - rewrite IH. apply orb_true_r.
Qed.

Lemma any_in_head ps s :
  any_in ps s = true → ∃ c p, c :: p ∈ ps ∧ c ∈ s ∨ [] ∈ ps.
Proof.
  unfold any_in. rewrite existsb_exists. intros ([|c p] & Hp & Hc).
  - exists 0%N, []. right. by apply list_elem_of_In.
  - exists c, p. left. split; [by apply list_elem_of_In|].
    by apply contains_head in Hc.
Qed.

(** ** More about the classifier *)

Lemma first_true_mono ps qs :
  Forall2 (λ p q : bool, p = true → q = true) ps qs →
  (first_true qs ≤ first_true ps)%nat.
Proof.
  induction 1 as [|p q ps qs Hpq _ IH]; [done|].
  destruct p, q; cbn; try lia.
Qed.

Lemma priority_tests selector pv :
  priority (categorize_selector selector pv)
  = first_true (selector_tests selector).
Proof.
  unfold categorize_selector, selector_tests.
  destruct (contains (lit "[data-subplot-idx") selector); [done|].
  destruct (any_in mode_patterns selector); [done|].
  destruct (any_in state_patterns selector); [done|].
  destruct (_ || _ || _); [done|].
  destruct (any_in validation_patterns selector); [done|].
  destruct (any_in obsidian_patterns selector); done.
Qed.

(** X1: text added before and after a selector can only move it to a
    category that is tested earlier, never to a later one. *)
Theorem categorize_selector_embedding a selector b pv pv' :
  (priority (categorize_selector (a ++ selector ++ b) pv)
   ≤ priority (categorize_selector selector pv'))%nat.
Proof.
  rewrite !priority_tests. apply first_true_mono. unfold selector_tests.
  repeat constructor;
    try apply contains_embedded; try apply any_in_embedded.
  rewrite !orb_true_iff.
  intros [[H|H]|H]; eauto using contains_embedded.
Qed.

(** X2: every pattern of the classifier starts with [.], [:] or [[], so a
    selector without these three characters (an element selector such as
    [div > p]) is always [7_other]. *)
Theorem plain_selector_uncategorized selector pv :
  46%N ∉ selector → 58%N ∉ selector → 91%N ∉ selector →
  categorize_selector selector pv = cat_other.
Proof.
  intros Hdot Hcolon Hbracket.
  assert (∀ p, match p with
               | c :: _ => bool_decide (c ∈ [46; 58; 91]%N)
               | [] => false
               end = true → contains p selector = false) as Hf.
  { intros [|c p] Hc; [done|]. apply bool_decide_eq_true in Hc.
    destruct (contains (c :: p) selector) eqn:E; [|done].
    apply contains_head in E.
    rewrite !elem_of_cons in Hc.
    destruct Hc as [->|[->|[->|?%elem_of_nil]]]; done. }
  unfold categorize_selector, any_in, mode_patterns, state_patterns,
    validation_patterns, obsidian_patterns.
  cbn [existsb]. rewrite !Hf by reflexivity. done.
Qed.

Lemma plain_selector_uncategorized_sample :
  (46%N ∉ lit "div > p") ∧ (58%N ∉ lit "div > p") ∧ (91%N ∉ lit "div > p")
  ∧ categorize_selector (lit "div > p") (lit "color: red") = cat_other.
Proof.
  assert (∀ c, bool_decide (c ∉ lit "div > p") = true → c ∉ lit "div > p")
    as H by (intros c; apply bool_decide_eq_true).
  split; [by apply H|]. split; [by apply H|]. split; [by apply H|].
  apply plain_selector_uncategorized; by apply H.
Defined.

(** ** More about the pattern *)

Lemma lazy_value_sound s : ∀ acc v,
  Regex.lazy_value acc s = Some v →
  ∃ g m, v = acc ++ g ∧ g ≠ [] ∧ s = g ++ m
         ∧ Regex.lit_ci Regex.marker m = true ∧ newline ∉ g.
Proof.
  induction s as [|c s IH]; intros acc v; cbn [Regex.lazy_value]; [done|].
  destruct (N.eqb_spec c newline) as [|Hc]; [done|].
  destruct (Regex.lit_ci Regex.marker s) eqn:Hm.
  - intros [= <-]. exists [c], s. repeat split; try done.
    intros ?%list_elem_of_singleton. congruence.
  - intros (g & m & -> & _ & -> & Hm' & Hnl)%IH.
    exists (c :: g), m. rewrite <- app_assoc. repeat split; try done.
    rewrite elem_of_cons. intros [?|?]; [congruence|done].
Qed.

Lemma greedy_spaces_sound {A} (k : str → option A) s r :
  Regex.greedy_spaces k s = Some r →
  ∃ ws s', s = ws ++ s' ∧ Forall (λ c, is_space c = true) ws ∧ k s' = Some r.
Proof.
  induction s as [|c s IH]; cbn [Regex.greedy_spaces].
  { intros Hk. by exists [], []. }
  destruct (is_space c) eqn:Hc; [|intros Hk; by exists [], (c :: s)].
  destruct (Regex.greedy_spaces k s) as [r'|] eqn:Hg.
  - intros [= ->]. destruct (IH eq_refl) as (ws & s' & -> & Hws & Hk).
    exists (c :: ws), s'. repeat split; [by constructor|done].
  - intros Hk. by exists [], (c :: s).
Qed.

Lemma greedy_prop_sound {A} (k : str → str → option A) s : ∀ acc r,
  Regex.greedy_prop k acc s = Some r →
  ∃ g s', s = g ++ s' ∧ Forall (λ c, Regex.is_prop_char c = true) g
          ∧ k (acc ++ g) s' = Some r.
Proof.
  induction s as [|c s IH]; intros acc r; cbn [Regex.greedy_prop].
  { intros Hk. exists [], []. by rewrite (app_nil_r acc). }
  destruct (Regex.is_prop_char c) eqn:Hc;
    [|intros Hk; exists [], (c :: s); by rewrite (app_nil_r acc)].
  destruct (Regex.greedy_prop k (acc ++ [c]) s) as [r'|] eqn:Hg.
  - intros [= ->]. destruct (IH _ _ Hg) as (g & s' & -> & Hgs & Hk).
    exists (c :: g), s'. rewrite <- app_assoc in Hk.
    repeat split; [by constructor|done].
  - intros Hk. exists [], (c :: s). by rewrite (app_nil_r acc).
Qed.

Lemma match_here_sound s g1 g2 :
  Regex.match_here s = Some (g1, g2) →
  ∃ ws1 ws2 m,
    s = g1 ++ ws1 ++ (58%N :: ws2) ++ g2 ++ m
    ∧ g1 ≠ [] ∧ Forall (λ c, Regex.is_prop_char c = true) g1
    ∧ Forall (λ c, is_space c = true) ws1
    ∧ Forall (λ c, is_space c = true) ws2
    ∧ g2 ≠ [] ∧ (newline ∉ g2)
    ∧ Regex.lit_ci Regex.marker m = true.
Proof.
  unfold Regex.match_here. destruct s as [|c s]; [done|].
  destruct (Regex.is_prop_char c) eqn:Hc; [|done].
  intros (g & s1 & -> & Hg & Hk)%greedy_prop_sound.
  unfold Regex.after_prop in Hk.
  apply greedy_spaces_sound in Hk as (ws1 & s2 & -> & Hws1 & Hk).
  destruct s2 as [|c2 s2]; [done|].
  destruct (N.eqb_spec c2 58) as [->|]; [|done].
  apply greedy_spaces_sound in Hk as (ws2 & s3 & -> & Hws2 & Hk).
  destruct (Regex.lazy_value [] s3) as [v|] eqn:Hv; [|done].
  injection Hk as <- <-.
  apply lazy_value_sound in Hv as (g' & m & -> & Hne & -> & Hm & Hnl).
  exists ws1, ws2, m. rewrite <- !app_assoc. cbn [app].
  repeat split; try done. by constructor.
Qed.

Lemma prop_char_not_space c :
  Regex.is_prop_char c = true → is_space c = false.
Proof.
  unfold Regex.is_prop_char, is_space.
  rewrite !orb_true_iff, !andb_true_iff, !N.leb_le, !N.eqb_eq. intros H.
  repeat (apply orb_false_intro);
    rewrite ?andb_false_iff, ?N.leb_gt, ?N.eqb_neq; lia.
Qed.

Lemma lstrip_by_id f s :
  match s with c :: _ => f c = false | [] => True end → lstrip_by f s = s.
Proof. destruct s as [|c s]; [done|]. cbn. by intros ->. Qed.

Lemma rstrip_by_id f s :
  match last s with Some c => f c = false | None => True end →
  rstrip_by f s = s.
Proof.
  intros H. unfold rstrip_by. rewrite lstrip_by_id.
  - apply reverse_involutive.
  - destruct s as [|c s _] using rev_ind; [done|].
    rewrite reverse_snoc. by rewrite last_snoc in H.
Qed.

Lemma strip_trimmed s : trimmed s → strip s = s.
Proof.
  intros [Hh Hl]. unfold strip. rewrite (lstrip_by_id _ s) by done.
  by apply rstrip_by_id.
Qed.

Lemma trimmed_strip s : trimmed (strip s).
Proof.
  unfold strip.
  destruct (lstrip_by_spec is_space s) as (_ & _ & _ & Hh).
  destruct (rstrip_by_spec is_space (lstrip_by is_space s))
    as (suf & Heq & _ & Hl).
  split; [|done].
  destruct (rstrip_by is_space (lstrip_by is_space s)) as [|c t]; [done|].
  rewrite Heq in Hh. done.
Qed.

Lemma trimmed_nil : trimmed [].
Proof. done. Qed.

Lemma search_segments line g1 g2 :
  Regex.search line = Some (g1, g2) →
  ∃ pre ws1 ws2 m,
    line = pre ++ g1 ++ ws1 ++ (58%N :: ws2) ++ g2 ++ m
    ∧ g1 ≠ [] ∧ Forall (λ c, Regex.is_prop_char c = true) g1
    ∧ Forall (λ c, is_space c = true) ws1
    ∧ Forall (λ c, is_space c = true) ws2
    ∧ g2 ≠ [] ∧ (newline ∉ g2)
    ∧ Regex.lit_ci Regex.marker m = true.
Proof.
  intros (i & Hi & _)%search_leftmost.
  apply match_here_sound in Hi as (ws1 & ws2 & m & Heq & H).
  exists (take i line), ws1, ws2, m. split; [|done].
  by rewrite <- Heq, take_drop.
Qed.

(** X3: a match of the declaration pattern is a segment of the line: a
    non-empty run of letters and hyphens, white space, a colon, white
    space, a non-empty value without newline, and then the marker in any
    letter case. *)
Theorem search_sound line g1 g2 :
  Regex.search line = Some (g1, g2) →
  ∃ pre ws1 ws2 m,
    line = pre ++ g1 ++ ws1 ++ (58%N :: ws2) ++ g2 ++ m
    ∧ g1 ≠ [] ∧ Forall (λ c, Regex.is_prop_char c = true) g1
    ∧ Forall (λ c, is_space c = true) ws1
    ∧ Forall (λ c, is_space c = true) ws2
    ∧ g2 ≠ [] ∧ (newline ∉ g2)
    ∧ Regex.lit_ci Regex.marker m = true.
Proof. apply search_segments. Qed.

Lemma search_sound_sample :
  Regex.search (lit "  padding : 0 !IMPORTANT;")
  = Some (lit "padding", lit "0 ")
  ∧ ∃ pre ws1 ws2 m,
      lit "  padding : 0 !IMPORTANT;"
      = pre ++ lit "padding" ++ ws1 ++ (58%N :: ws2) ++ lit "0 " ++ m
      ∧ lit "padding" ≠ []
      ∧ Forall (λ c, Regex.is_prop_char c = true) (lit "padding")
      ∧ Forall (λ c, is_space c = true) ws1
      ∧ Forall (λ c, is_space c = true) ws2
      ∧ lit "0 " ≠ [] ∧ (newline ∉ lit "0 ")
      ∧ Regex.lit_ci Regex.marker m = true.
Proof.
  assert (Regex.search (lit "  padding : 0 !IMPORTANT;")
          = Some (lit "padding", lit "0 ")) as H
    by (vm_compute; reflexivity).
  split; [exact H|]. exact (search_sound _ _ _ H).
Defined.

(** ** More about the scan *)

Lemma scan_lines_invariant (I : scan_state → Prop) name lines todo : ∀ st,
  I st →
  (∀ st n line, (n, line) ∈ todo → I st → I (scan_line name lines st n line)) →
  I (scan_lines name lines st todo).
Proof.
  induction todo as [|[n line] todo IH]; intros st Hst Hstep; [done|].
  apply IH.
  - apply Hstep; [left|done].
  - intros st' n' line' Hin. apply Hstep. by right.
Qed.

Lemma enumerate_elem_of {A} (l : list A) s n x :
  (n, x) ∈ enumerate s l → x ∈ l.
Proof.
  intros [_ H]%enumerate_lookup. apply list_elem_of_lookup. eauto.
Qed.

Lemma scan_line_current_selector name lines st n line :
  current_selector (scan_line name lines st n line)
  = (track_selector lines st n line).1.1.
Proof.
  unfold scan_line. by destruct (track_selector lines st n line) as [[? ?] ?].
Qed.

Lemma scan_line_brace_depth name lines st n line :
  brace_depth (scan_line name lines st n line)
  = brace_depth st + (count 123%N line - count 125%N line).
Proof.
  unfold scan_line.
  destruct (track_selector lines st n line) as [[sel depth] start] eqn:Ht.
  cbn [brace_depth]. unfold track_selector in Ht.
  destruct (if 0 <? count 123%N line then _ else _) as [sel' start'].
  by injection Ht as _ <- _.
Qed.

Lemma look_back_selector_found lines idxs s l :
  look_back_selector lines idxs = Some (s, l) →
  l - 1 ∈ idxs ∧ s = strip (line_at lines (l - 1)) ∧ s ≠ []
  ∧ startswith (lit "/*") s = false ∧ startswith (lit "*") s = false
  ∧ (123%N ∉ s) ∧ (125%N ∉ s).
Proof.
  induction idxs as [|i idxs IH]; cbn [look_back_selector]; [done|].
  destruct (nonempty _ && _ && _ && _) eqn:Hc.
  - intros [= <- <-]. replace (i + 1 - 1) with i by lia.
    rewrite !andb_true_iff, !negb_true_iff in Hc.
    destruct Hc as [[[Hne Hc1] Hc2] [Hb1 Hb2]].
    split; [left|]. split; [done|]. split; [by intros Heq; rewrite Heq in Hne|].
    repeat split; try done.
    + intros Hin%contains_char.
      change (lit "{") with [123%N] in Hb1. congruence.
    + intros Hin%contains_char.
      change (lit "}") with [125%N] in Hb2. congruence.
  - intros (Hin & H)%IH. split; [by right|done].
Qed.

Lemma look_back_brace_found lines idxs s :
  look_back_brace lines idxs = Some s →
  ∃ i, i ∈ idxs ∧ 123%N ∈ strip (line_at lines i) ∧ trimmed s.
Proof.
  induction idxs as [|i idxs IH]; cbn [look_back_brace]; [done|].
  destruct (endswith (lit "{") (strip (line_at lines i))) eqn:He.
  - intros [= <-]. exists i. split; [left|]. split; [|apply trimmed_strip].
    unfold endswith in He.
    destruct (reverse (strip (line_at lines i))) as [|c t] eqn:Hr; [done|].
    cbn in He. rewrite andb_true_r in He. apply N.eqb_eq in He as <-.
    rewrite <- (reverse_involutive (strip _)), Hr, reverse_cons.
    apply elem_of_app. right. left.
  - destruct (contains (lit "{") (strip (line_at lines i))) eqn:Hc.
    + intros [= <-]. exists i. split; [left|]. split; [|apply trimmed_strip].
      by apply contains_char.
    + intros (j & Hj & H)%IH. exists j. split; [by right|done].
Qed.

Lemma look_back_brace_none lines idxs :
  (∀ line, line ∈ lines → 123%N ∉ line) →
  look_back_brace lines idxs = None.
Proof.
  intros Hno. destruct (look_back_brace lines idxs) as [s|] eqn:H; [|done].
  apply look_back_brace_found in H as (i & _ & Hin & _).
  assert (123%N ∈ line_at lines i) as Hin'.
  { unfold strip in Hin.
    destruct (rstrip_by_spec is_space (lstrip_by is_space (line_at lines i)))
      as (suf & Heq & _).
    destruct (lstrip_by_spec is_space (line_at lines i)) as (pre & Heq' & _).
    rewrite Heq', Heq. rewrite !elem_of_app. auto. }
  unfold line_at in Hin'. destruct (getitem lines i) as [line|] eqn:Hg.
  - cbn in Hin'. destruct (Hno line); [|done].
    unfold getitem in Hg. repeat case_match; try done;
      apply list_elem_of_lookup; eauto.
  - by apply elem_of_nil in Hin'.
Qed.

Lemma count_absent c s : c ∉ s → count c s = 0.
Proof.
  induction s as [|a s IH]; [done|].
  rewrite not_elem_of_cons. intros [Hne Hs]. cbn [count].
  rewrite IH by done. by rewrite (proj2 (N.eqb_neq a c)) by done.
Qed.

Lemma split_lines_segments s :
  (∃ l ls b, split_lines s = l :: ls ∧ s = l ++ b)
  ∧ ∀ line, line ∈ split_lines s → ∃ a b, s = a ++ line ++ b.
Proof.
  induction s as [|c s [(l & ls & b & Hs & Heq) IH]]; cbn [split_lines].
  { split; [by exists [], [], []|].
    intros line ->%list_elem_of_singleton. by exists [], []. }
  destruct (N.eqb_spec c newline) as [->|Hc].
  - split; [by exists [], (split_lines s), (newline :: s)|].
    intros line [->|Hin]%elem_of_cons.
    + by exists [], (newline :: s).
    + destruct (IH _ Hin) as (a & b' & ->). by exists (newline :: a), b'.
  - rewrite Hs. split; [exists (c :: l), ls, b; by rewrite Heq|].
    intros line [->|Hin]%elem_of_cons.
    + exists [], b. by rewrite Heq.
    + destruct (IH line) as (a & b' & Hab); [rewrite Hs; by right|].
      exists (c :: a), b'. by rewrite Hab.
Qed.

Lemma split_lines_elem_of s line x :
  line ∈ split_lines s → x ∈ line → x ∈ s.
Proof.
  intros (a & b & ->)%split_lines_segments Hx. rewrite !elem_of_app. auto.
Qed.

(** X4: the property of every record is a non-empty run of letters and
    hyphens, and its category is the classification of its own selector. *)
Theorem record_property_shape name content d :
  d ∈ parse_css_file name content →
  property d ≠ []
  ∧ Forall (λ c, Regex.is_prop_char c = true) (property d)
  ∧ file d = name
  ∧ category d
    = categorize_selector (selector d) (property d ++ lit ": " ++ value d).
Proof.
  intros Hd.
  pose proof (parse_classified name content) as Hcl.
  rewrite Forall_forall in Hcl. destruct (Hcl _ Hd) as [Hfile Hcat].
  assert (summary d ∈ omap finding (enumerate 1 (split_lines content)))
    as ([n line] & _ & Hf)%list_elem_of_omap.
  { rewrite <- (parse_findings name). by apply list_elem_of_fmap_2. }
  apply finding_Some in Hf as (g1 & g2 & _ & Hs & [= _ Hp _]).
  apply search_segments in Hs as (_ & _ & _ & _ & _ & Hne & Hg1 & _).
  assert (strip g1 = g1) as Hstrip.
  { apply strip_trimmed. split.
    - destruct g1 as [|c g1]; [done|].
      apply Forall_cons in Hg1 as [Hc _]. by apply prop_char_not_space.
    - destruct g1 as [|c g1 _] using rev_ind; [done|].
      rewrite last_snoc. apply Forall_app in Hg1 as [_ Hc].
      apply Forall_cons in Hc as [Hc _]. by apply prop_char_not_space. }
  rewrite Hp, Hstrip. done.
Qed.

Lemma record_property_shape_sample :
  {| file := lit "a.css"; line_number := 1; selector := [];
     property := lit "color"; value := lit "red"; category := cat_other |}
    ∈ parse_css_file (lit "a.css") one_line_rule
  ∧ lit "color" ≠ []
  ∧ Forall (λ c, Regex.is_prop_char c = true) (lit "color").
Proof.
  assert ({| file := lit "a.css"; line_number := 1; selector := [];
             property := lit "color"; value := lit "red";
             category := cat_other |}
            ∈ parse_css_file (lit "a.css") one_line_rule) as H.
  { vm_compute. apply list_elem_of_here. }
  split; [exact H|].
  destruct (record_property_shape _ _ _ H) as (H1 & H2 & _). by split.
Defined.

Lemma track_selector_trimmed lines st n line :
  trimmed (current_selector st) →
  trimmed (track_selector lines st n line).1.1.
Proof.
  intros Hcur. unfold track_selector.
  destruct (0 <? count 123%N line); cycle 1.
  { cbn. destruct (_ && _); [apply trimmed_nil|done]. }
  destruct (0 <? find 123%N line).
  { destruct (nonempty _ && _); cbn;
      (destruct (_ && _); [apply trimmed_nil|]); [apply trimmed_strip|done]. }
  destruct (brace_depth st =? 0); cycle 1.
  { cbn. destruct (_ && _); [apply trimmed_nil|done]. }
  destruct (look_back_selector lines _) as [[s l]|] eqn:Hl; cbn;
    (destruct (_ && _); [apply trimmed_nil|]); [|done].
  apply look_back_selector_found in Hl as (_ & -> & _). apply trimmed_strip.
Qed.

Lemma record_selector_trimmed lines n cur :
  trimmed cur → trimmed (record_selector lines n cur).
Proof.
  intros Hcur. unfold record_selector. destruct (nonempty cur); [done|].
  destruct (look_back_brace lines _) as [s|] eqn:Hl; [|done].
  by apply look_back_brace_found in Hl as (_ & _ & _ & ?).
Qed.

(** X5: the selector, the property and the value of every record are
    trimmed: [strip()] leaves each of them unchanged. *)
Theorem records_trimmed name content d :
  d ∈ parse_css_file name content →
  strip (selector d) = selector d
  ∧ strip (property d) = property d
  ∧ strip (value d) = value d.
Proof.
  unfold parse_css_file. intros Hd.
  pose (I := λ st : scan_state,
          trimmed (current_selector st)
          ∧ Forall (λ d, trimmed (selector d) ∧ trimmed (property d)
                         ∧ trimmed (value d)) (declarations st)).
  assert (I (scan_lines name (split_lines content) scan_init
               (enumerate 1 (split_lines content)))) as [_ Hall].
  { apply scan_lines_invariant.
    - split; [apply trimmed_nil|constructor].
    - intros st n line _ [Hcur Hds].
      assert (trimmed (current_selector
                (scan_line name (split_lines content) st n line))) as Hcur'.
      { rewrite scan_line_current_selector. by apply track_selector_trimmed. }
      split; [done|]. rewrite scan_line_declarations.
      apply Forall_app. split; [done|].
      destruct (contains Regex.marker line); [|constructor].
      destruct (Regex.search line) as [[g1 g2]|]; [|constructor].
      constructor; [|constructor]. cbn.
      split; [by apply record_selector_trimmed|].
      split; apply trimmed_strip. }
  rewrite Forall_forall in Hall. destruct (Hall _ Hd) as (H1 & H2 & H3).
  by rewrite !strip_trimmed.
Qed.

Lemma records_trimmed_sample :
  {| file := lit "b.css"; line_number := 2;
     selector := lit ".x[data-subplot-idx]";
     property := lit "color"; value := lit "red";
     category := cat_subplot_colors |}
    ∈ parse_css_file (lit "b.css") two_rules
  ∧ strip (lit ".x[data-subplot-idx]") = lit ".x[data-subplot-idx]"
  ∧ strip (lit "color") = lit "color"
  ∧ strip (lit "red") = lit "red".
Proof.
  assert ({| file := lit "b.css"; line_number := 2;
             selector := lit ".x[data-subplot-idx]";
             property := lit "color"; value := lit "red";
             category := cat_subplot_colors |}
            ∈ parse_css_file (lit "b.css") two_rules) as H.
  { vm_compute. apply list_elem_of_here. }
  split; [exact H|]. exact (records_trimmed _ _ _ H).
Defined.

(** X6: in a file without any opening brace, selector recovery fails for
    every record: each one has an empty selector and category [7_other]. *)
Theorem no_brace_no_selector name content d :
  123%N ∉ content →
  d ∈ parse_css_file name content →
  selector d = [] ∧ category d = cat_other.
Proof.
  unfold parse_css_file. intros Hno Hd.
  assert (∀ line, line ∈ split_lines content → 123%N ∉ line) as Hlines.
  { intros line Hline Hin. apply Hno. by eapply split_lines_elem_of. }
  pose (I := λ st : scan_state,
          current_selector st = []
          ∧ Forall (λ d, selector d = [] ∧ category d = cat_other)
              (declarations st)).
  assert (I (scan_lines name (split_lines content) scan_init
               (enumerate 1 (split_lines content)))) as [_ Hall].
  { apply scan_lines_invariant.
    - split; [done|constructor].
    - intros st n line Hin%enumerate_elem_of [Hcur Hds].
      assert (current_selector
                (scan_line name (split_lines content) st n line) = [])
        as Hcur'.
      { rewrite scan_line_current_selector. unfold track_selector.
        rewrite (count_absent 123%N line) by auto. cbn.
        rewrite Hcur. by destruct (_ && _). }
      split; [done|]. rewrite scan_line_declarations.
      apply Forall_app. split; [done|].
      destruct (contains Regex.marker line); [|constructor].
      destruct (Regex.search line) as [[g1 g2]|]; [|constructor].
      constructor; [|constructor]. rewrite Hcur'. cbn.
      unfold record_selector. cbn [nonempty].
      rewrite look_back_brace_none by done. done. }
  rewrite Forall_forall in Hall. auto.
Qed.

Lemma no_brace_no_selector_sample :
  (123%N ∉ lit "color: red !important;")
  ∧ {| file := lit "a.css"; line_number := 1; selector := [];
       property := lit "color"; value := lit "red";
       category := cat_other |}
      ∈ parse_css_file (lit "a.css") (lit "color: red !important;")
  ∧ @nil N = [] ∧ cat_other = cat_other.
Proof.
  assert (123%N ∉ lit "color: red !important;") as H1
    by (apply (bool_decide_unpack _); vm_compute; exact I).
  assert ({| file := lit "a.css"; line_number := 1; selector := [];
             property := lit "color"; value := lit "red";
             category := cat_other |}
            ∈ parse_css_file (lit "a.css") (lit "color: red !important;"))
    as H2 by (vm_compute; apply list_elem_of_here).
  split; [exact H1|]. split; [exact H2|].
  exact (no_brace_no_selector _ _ _ H1 H2).
Defined.

(** X7: a file that does not contain [!important] in lower case yields no
    record, even where the pattern, which ignores case, would match. *)
Theorem no_marker_no_records name content :
  contains Regex.marker content = false →
  parse_css_file name content = [].
Proof.
  intros Hno.
  assert (omap finding (enumerate 1 (split_lines content)) = []) as Hnil.
  { generalize 1. intros s.
    assert (∀ line, line ∈ split_lines content →
                    contains Regex.marker line = false) as Hlines.
    { intros line (a & b & Heq)%split_lines_segments.
      destruct (contains Regex.marker line) eqn:Hc; [|done].
      rewrite Heq, (contains_embedded _ a line b Hc) in Hno. done. }
    revert s. induction (split_lines content) as [|l ls IH]; intros s; [done|].
    cbn [enumerate]. rewrite omap_cons_eq. unfold finding at 1. cbn [fst snd].
    rewrite Hlines by left. apply IH. intros line Hin. apply Hlines. by right. }
  rewrite <- (parse_findings name) in Hnil.
  by destruct (parse_css_file name content).
Qed.

Lemma no_marker_no_records_sample :
  contains Regex.marker (lit "a { color: red !IMPORTANT; }") = false
  ∧ Regex.search (lit "a { color: red !IMPORTANT; }")
    = Some (lit "color", lit "red ")
  ∧ parse_css_file (lit "a.css") (lit "a { color: red !IMPORTANT; }") = [].
Proof.
  split; [vm_compute; reflexivity|]. split; [vm_compute; reflexivity|].
  apply no_marker_no_records. vm_compute. reflexivity.
Defined.

(** X8: the first look-back adopts a selector only from one of the eight
    lines before the brace line, and never from the first line of the
    file; the line it adopts is non-empty, without braces, and not the
    start of a comment. *)
Theorem look_back_selector_window lines n s l :
  look_back_selector lines (range_down (n - 2) (Z.max 0 (n - 10)))
  = Some (s, l) →
  2 <= l <= n - 1 ∧ n - 8 <= l
  ∧ s = strip (line_at lines (l - 1)) ∧ s ≠ []
  ∧ startswith (lit "/*") s = false ∧ startswith (lit "*") s = false
  ∧ (123%N ∉ s) ∧ (125%N ∉ s).
Proof.
  intros (Hin%range_down_bounds & H)%look_back_selector_found.
  split; [lia|]. split; [lia|done].
Qed.

Lemma look_back_selector_window_sample :
  look_back_selector
    (split_lines (newline :: split_brace_rule))
    (range_down (3 - 2) (Z.max 0 (3 - 10)))
  = Some (lit ".modal-content", 2)
  ∧ 2 <= 2 <= 3 - 1.
Proof.
  assert (look_back_selector
            (split_lines (newline :: split_brace_rule))
            (range_down (3 - 2) (Z.max 0 (3 - 10)))
          = Some (lit ".modal-content", 2)) as H
    by (vm_compute; reflexivity).
  split; [exact H|]. exact (proj1 (look_back_selector_window _ _ _ _ H)).
Defined.



Lemma sumZ_enumerate (f : str → Z) l : ∀ s,
  sumZ (λ nl : Z * str, f nl.2) (enumerate s l) = sumZ f l.
Proof.
  induction l as [|x l IH]; intros s; [done|].
  cbn [enumerate sumZ foldr snd]. f_equal. apply IH.
Qed.

Lemma sumZ_count_split_lines c s :
  c ≠ newline → sumZ (count c) (split_lines s) = count c s.
Proof.
  intros Hc. induction s as [|a s IH]; [done|].
  cbn [split_lines count]. destruct (N.eqb_spec a newline) as [->|Hne].
  - rewrite (proj2 (N.eqb_neq newline c)) by done.
    cbn [sumZ foldr count]. fold (sumZ (count c) (split_lines s)).
    rewrite IH. lia.
  - rewrite <- IH. destruct (split_lines s) as [|l ls]; cbn; lia.
Qed.

Lemma scan_lines_brace_depth name lines todo : ∀ st,
  brace_depth (scan_lines name lines st todo)
  = brace_depth st
    + (sumZ (λ nl, count 123%N nl.2) todo - sumZ (λ nl, count 125%N nl.2) todo).
Proof.
  induction todo as [|[n line] todo IH]; intros st; [cbn; lia|].
  change (scan_lines name lines st ((n, line) :: todo))
    with (scan_lines name lines (scan_line name lines st n line) todo).
  rewrite IH, scan_line_brace_depth. unfold sumZ. cbn [foldr snd]. lia.
Qed.

(** X10: after the scan of a file, [brace_depth] is the number of opening
    braces of the file minus the number of closing ones; it is not kept
    above zero. *)
Theorem brace_depth_balance name content :
  brace_depth (scan_lines name (split_lines content) scan_init
                 (enumerate 1 (split_lines content)))
  = count 123%N content - count 125%N content.
Proof.
  rewrite scan_lines_brace_depth, !sumZ_enumerate.
  rewrite !sumZ_count_split_lines by done. cbn. lia.
Qed.

(** ** More about the run *)

Lemma omap_nil_Forall {A B} (g : A → option B) l :
  Forall (λ x, g x = None) l → omap g l = [].
Proof.
  induction 1 as [|x l Hx _ IH]; [done|]. by rewrite omap_cons_eq, Hx.
Qed.

Lemma print_summary_listing by_category :
  Forall listing (print_summary by_category).
Proof.
  unfold print_summary. apply Forall_bind, Forall_forall. intros k _.
  cbn. constructor; [done|]. apply Forall_app. split; [|by repeat constructor].
  apply Forall_fmap, Forall_forall. done.
Qed.

Lemma print_breakdown_listing by_category :
  Forall listing (print_breakdown by_category).
Proof.
  unfold print_breakdown. apply Forall_bind, Forall_forall. intros k _.
  cbn. repeat (constructor; [done|]).
  apply Forall_bind, Forall_forall. intros fname _.
  cbn. constructor; [done|].
  apply Forall_bind, Forall_forall. intros d _. by repeat constructor.
Qed.

Lemma main_omap {B} (g : effect → option B) env :
  styles_dir_exists env = true →
  (∀ e, listing e → g e = None) →
  omap g (main env)
  = omap g [Print (Scanning (length (css_files env)) (styles_dir env))]
    ++ omap g (scan_files (sorted_by fst (css_files env))).1
    ++ omap g [Print Rule_equals;
               Print (Grand_total (length (all_declarations env)));
               Print Rule_equals; Print Summary_header]
    ++ omap g [Write_json (report_path env)
                 (build_report (all_declarations env));
               Print (Report_written (report_path env));
               Print Rule_equals; Print Breakdown_header; Print Rule_equals].
Proof.
  intros Hex Hg. unfold main, all_declarations. rewrite Hex. cbn [negb].
  assert (length (sorted_by fst (css_files env)) = length (css_files env))
    as Hlen.
  { unfold sorted_by. by rewrite merge_sort_Permutation. }
  rewrite <- Hlen.
  destruct (scan_files (sorted_by fst (css_files env))) as [effs all].
  cbn [fst snd]. rewrite !omap_app.
  rewrite (omap_nil_Forall g (print_summary _)); cycle 1.
  { eapply Forall_impl; [apply print_summary_listing|done]. }
  rewrite (omap_nil_Forall g (print_breakdown _)); cycle 1.
  { eapply Forall_impl; [apply print_breakdown_listing|done]. }
  by rewrite !app_nil_r.
Qed.

Lemma scan_files_effects files :
  (scan_files files).1
  = files ≫= λ f, [Read_file f.1;
                    Print (File_count f.1 (length (parse_css_file f.1 f.2)))].
Proof.
  unfold scan_files.
  enough (∀ acc : list effect * list ImportantDeclaration,
    (foldl (λ acc f,
              (acc.1 ++ [Read_file f.1;
                 Print (File_count f.1 (length (parse_css_file f.1 f.2)))],
               acc.2 ++ parse_css_file f.1 f.2)) acc files).1
    = acc.1 ++ (files ≫= λ f, [Read_file f.1;
                   Print (File_count f.1
                            (length (parse_css_file f.1 f.2)))])) as H
    by apply (H ([], [])).
  induction files as [|f files IH]; intros acc; csimpl.
  { by rewrite app_nil_r. }
  rewrite IH. cbn [fst]. by rewrite <- app_assoc.
Qed.

Lemma sorted_by_fst_sorted {B} (l : list (str * B)) :
  StronglySorted str_le (sorted_by fst l).*1.
Proof.
  apply (StronglySorted_fmap fst (λ a b, str_le a.1 b.1)); [done|].
  unfold sorted_by. apply StronglySorted_merge_sort.
  - intros a b c. apply str_le_trans.
  - intros a b. apply str_le_total.
Qed.







(** ** More about the report *)

Lemma dd_append_get {A} (d : dict (list A)) k' x k :
  default [] (get (dd_append d k' x) k)
  = default [] (get d k) ++ (if decide (k' = k) then [x] else []).
Proof.
  induction d as [|[k0 g] d IH].
  - unfold dd_append. cbn [get set default from_option app].
    destruct (decide (k = k')) as [->|Hne].
    + by rewrite decide_True.
    + by rewrite decide_False by congruence.
  - rewrite dd_append_cons. destruct (decide (k' = k0)) as [->|Hne].
    + cbn [get]. destruct (decide (k = k0)) as [->|Hne'].
      * by rewrite decide_True.
      * rewrite decide_False by congruence. by rewrite app_nil_r.
    + cbn [get]. destruct (decide (k = k0)) as [->|Hne']; [|done].
      rewrite decide_False by done. by rewrite app_nil_r.
Qed.

Lemma group_by_get {A} (key : A → str) (l : list A) k :
  default [] (get (group_by key l) k) = filter (λ x, key x = k) l.
Proof.
  unfold group_by.
  enough (∀ d : dict (list A),
            default [] (get (foldl (λ d x, dd_append d (key x) x) d l) k)
            = default [] (get d k) ++ filter (λ x, key x = k) l) as H
    by apply (H []).
  induction l as [|x l IH]; intros d; cbn [foldl].
  { by rewrite app_nil_r. }
  rewrite IH, dd_append_get, filter_cons, <- app_assoc.
  by destruct (decide (key x = k)).
Qed.

Lemma get_of_elem {V} (d : dict V) k v :
  NoDup (keys d) → (k, v) ∈ d → get d k = Some v.
Proof.
  unfold keys. induction d as [|[k0 v0] d IH]; [by intros _ ?%elem_of_nil|].
  rewrite fmap_cons, NoDup_cons. intros [Hk0 Hnd] [[= -> ->]|Hin]%elem_of_cons.
  - cbn [get]. by rewrite decide_True.
  - cbn [get]. rewrite decide_False; [auto|].
    intros ->. apply Hk0. apply list_elem_of_fmap. by exists (k0, v).
Qed.

(** X14: in the report a run writes, the list stored for a file under a
    category holds exactly the records of that category and that file, in
    the order of the record list, and is never empty. *)
Theorem report_files_partition env r k e f g :
  r ∈ reports_written (main env) →
  (k, e) ∈ r_by_category r →
  (f, g) ∈ e_files e →
  g = filter (λ d, file d = f)
        (filter (λ d, category d = k) (r_declarations r))
  ∧ g ≠ [].
Proof.
  intros [_ ->]%written_report. rewrite build_report_by_category.
  intros (k' & [= -> ->] & _)%list_elem_of_fmap.
  cbn [e_files category_entry_of r_declarations build_report].
  unfold decls_of. rewrite group_by_get. intros Hin. split.
  - rewrite <- group_by_get.
    by rewrite (get_of_elem _ _ _ (group_by_keys_NoDup _ _) Hin).
  - pose proof (group_by_nonempty file
                  (filter (λ d, category d = k') (all_declarations env)))
      as Hne.
    rewrite Forall_forall in Hne. apply Hne.
    unfold values. apply list_elem_of_fmap. by exists (f, g).
Qed.

Lemma report_files_partition_sample :
  ∃ r k e f g,
    r ∈ reports_written (main two_rules_env)
    ∧ (k, e) ∈ r_by_category r
    ∧ (f, g) ∈ e_files e
    ∧ g = filter (λ d, file d = f)
            (filter (λ d, category d = k) (r_declarations r))
    ∧ g ≠ [].
Proof.
  assert (build_report (all_declarations two_rules_env)
            ∈ reports_written (main two_rules_env)) as H1
    by (vm_compute; apply list_elem_of_here).
  eexists _, _, _, _, _. split; [exact H1|].
  assert (∀ k e f g (H2 : (k, e) ∈ r_by_category _) (H3 : (f, g) ∈ e_files e),
            (k, e) ∈ r_by_category _ ∧ (f, g) ∈ e_files e ∧ _)
    as H by (intros k e f g H2 H3; split; [exact H2|]; split; [exact H3|];
             exact (report_files_partition _ _ k e f g H1 H2 H3)).
  apply H; vm_compute; apply list_elem_of_here.
Defined.

(** X15: every entry of [by_category] in a written report carries the
    display name that [category_names] lists for its key; the fallback to
    the raw key is never taken. *)
Theorem report_names_listed env r k e :
  r ∈ reports_written (main env) →
  (k, e) ∈ r_by_category r →
  get category_names k = Some (e_name e).
Proof.
  intros [_ ->]%written_report. rewrite build_report_by_category.
  intros (k' & [= -> ->] & Hk)%list_elem_of_fmap.
  rewrite sorted_Permutation, group_by_keys in Hk.
  apply list_elem_of_fmap in Hk as (d & -> & Hd).
  pose proof (all_declarations_classified env) as Hall.
  rewrite Forall_forall in Hall. specialize (Hall _ Hd). cbn in Hall.
  cbn [e_name category_entry_of].
  assert (Forall (λ k, get category_names k = Some (cat_name k))
            category_keys) as Hnames by (by repeat constructor).
  rewrite Forall_forall in Hnames. auto.
Qed.

Lemma report_names_listed_sample :
  ∃ r k e,
    r ∈ reports_written (main two_rules_env)
    ∧ (k, e) ∈ r_by_category r
    ∧ get category_names k = Some (e_name e).
Proof.
  assert (build_report (all_declarations two_rules_env)
            ∈ reports_written (main two_rules_env)) as H1
    by (vm_compute; apply list_elem_of_here).
  eexists _, _, _. split; [exact H1|].
  assert (∀ k e (H2 : (k, e) ∈ r_by_category _),
            (k, e) ∈ r_by_category _ ∧ _)
    as H by (intros k e H2; split; [exact H2|];
             exact (report_names_listed _ _ k e H1 H2)).
  apply H; vm_compute; apply list_elem_of_here.
Defined.

(** ** The method replacement script *)

Lemma split_lines_no_newline s : Forall (λ l, newline ∉ l) (split_lines s).
Proof.
  induction s as [|c s IH]; cbn [split_lines].
  { constructor; [apply not_elem_of_nil|constructor]. }
  destruct (N.eqb_spec c newline) as [->|Hc].
  - constructor; [apply not_elem_of_nil|done].
  - destruct (split_lines s) as [|l ls].
    { constructor; [|constructor].
      intros ?%list_elem_of_singleton. congruence. }
    apply Forall_cons in IH as [Hl Hls]. constructor; [|done].
    rewrite not_elem_of_cons. split; [congruence|done].
Qed.

Lemma split_lines_single l : newline ∉ l → split_lines l = [l].
Proof.
  induction l as [|c l IH]; [done|].
  rewrite not_elem_of_cons. intros [Hc Hl]. cbn [split_lines].
  rewrite (proj2 (N.eqb_neq c newline)) by congruence. by rewrite IH.
Qed.

Lemma split_lines_app_newline l rest :
  newline ∉ l → split_lines (l ++ newline :: rest) = l :: split_lines rest.
Proof.
  induction l as [|c l IH]; [done|].
  rewrite not_elem_of_cons. intros [Hc Hl]. cbn [split_lines app].
  rewrite (proj2 (N.eqb_neq c newline)) by congruence. by rewrite IH.
Qed.

Lemma split_join ls :
  ls ≠ [] → Forall (λ l, newline ∉ l) ls → split_lines (join_lines ls) = ls.
Proof.
  induction ls as [|l ls IH]; [done|]. intros _ [Hl Hls]%Forall_cons.
  destruct ls as [|l2 ls]; [by apply split_lines_single|].
  cbn [join_lines]. rewrite split_lines_app_newline by done.
  f_equal. by apply IH.
Qed.

Lemma count_nonneg c s : 0 <= count c s.
Proof. induction s as [|a s IH]; cbn [count]; [done|]. case_match; lia. Qed.

Section replace_method_facts.
Import ReplaceMethod.

Lemma find_start_Some lines s :
  find_start lines = Some s →
  Forall (λ l, contains needle l = false) (take s lines)
  ∧ ∃ l, lines !! s = Some l ∧ contains needle l = true.
Proof.
  revert s. induction lines as [|l lines IH]; intros s; cbn [find_start];
    [done|].
  destruct (contains needle l) eqn:Hl.
  - intros [= <-]. split; [constructor|]. by exists l.
  - destruct (find_start lines) as [s'|]; [|done]. intros [= <-].
    destruct (IH s' eq_refl) as [Hpre Hs]. split; [by constructor|done].
Qed.

Lemma find_start_app pre rest :
  Forall (λ l, contains needle l = false) pre →
  find_start (pre ++ rest) = (λ i, length pre + i)%nat <$> find_start rest.
Proof.
  induction 1 as [|l pre Hl _ IH]; cbn [find_start app length].
  { by destruct (find_start rest). }
  rewrite Hl, IH. by destruct (find_start rest).
Qed.

Lemma find_start_None lines :
  Forall (λ l, contains needle l = false) lines → find_start lines = None.
Proof.
  induction 1 as [|l lines Hl _ IH]; [done|].
  cbn [find_start]. by rewrite Hl, IH.
Qed.

Lemma count_braces_spec line : ∀ b st,
  count_braces line (b, st)
  = (b + net_braces line, st || (0 <? count 123%N line)).
Proof.
  unfold net_braces.
  induction line as [|c line IH]; intros b st; cbn [count_braces count].
  { f_equal; [lia|by rewrite orb_false_r]. }
  pose proof (count_nonneg 123%N line) as Hnn.
  destruct (N.eqb_spec c 123) as [->|H1]; cbn [fst snd].
  - change (123 =? 125)%N with false. rewrite IH. f_equal; [lia|].
    rewrite (proj2 (Z.ltb_lt 0 (1 + _))) by lia. by rewrite orb_true_r.
  - destruct (N.eqb_spec c 125) as [->|H2]; rewrite IH, ?Z.add_0_l;
      f_equal; lia.
Qed.

Lemma find_end_spec lines : ∀ i b st e,
  find_end lines i (b, st) = Some e →
  (i ≤ e < i + length lines)%nat
  ∧ b + sumZ net_braces (take (S (e - i)) lines) = 0
  ∧ (st = true ∨ 0 < sumZ (count 123%N) (take (S (e - i)) lines)).
Proof.
  induction lines as [|l lines IH]; intros i b st e; cbn [find_end]; [done|].
  rewrite count_braces_spec. cbn [fst snd].
  pose proof (count_nonneg 123%N l) as Hnn.
  destruct ((st || (0 <? count 123%N l)) && (b + net_braces l =? 0)) eqn:Hc.
  - intros [= <-]. rewrite Nat.sub_diag, firstn_cons, take_0.
    cbn [sumZ foldr length].
    apply andb_true_iff in Hc as [Hs Hb]. apply Z.eqb_eq in Hb.
    split; [lia|]. split; [lia|].
    apply orb_true_iff in Hs as [?|?%Z.ltb_lt]; [by left|right; lia].
  - intros (Hie & Hsum & Hst)%IH.
    replace (S (e - i)) with (S (S (e - S i))) by lia.
    rewrite firstn_cons. cbn [sumZ foldr length].
    fold (sumZ net_braces (take (S (e - S i)) lines)).
    fold (sumZ (count 123%N) (take (S (e - S i)) lines)).
    split; [lia|]. split; [lia|].
    destruct Hst as [Hst|Hst]; [|right; lia].
    apply orb_true_iff in Hst as [?|?%Z.ltb_lt]; [by left|right].
    assert (0 <= sumZ (count 123%N) (take (S (e - S i)) lines)); [|lia].
    clear. induction (take _ lines) as [|x xs IH]; cbn; [done|].
    pose proof (count_nonneg 123%N x). unfold sumZ in IH. lia.
Qed.

Lemma replace_method_written content new :
  written (replace_method content) = Some new →
  ∃ s e,
    find_start (split_lines content) = Some s
    ∧ find_end (drop s (split_lines content)) s (0, false) = Some e
    ∧ new = join_lines (take s (split_lines content) ++ new_method
                          ++ drop (e + 1) (split_lines content)).
Proof.
  unfold replace_method.
  destruct (find_start (split_lines content)) as [s|]; [|done].
  destruct (find_end _ s (0, false)) as [e|] eqn:He; [|done].
  cbn [written]. intros [= <-]. by exists s, e.
Qed.

Lemma new_lines_split pre post :
  Forall (λ l, newline ∉ l) pre → Forall (λ l, newline ∉ l) post →
  split_lines (join_lines (pre ++ new_method ++ post))
  = pre ++ new_method ++ post.
Proof.
  intros Hpre Hpost. apply split_join.
  - by destruct pre.
  - apply Forall_app. split; [done|]. apply Forall_app. split; [|done].
    repeat constructor; apply (bool_decide_unpack _); vm_compute; exact I.
Qed.

(** X16: when no line of the file holds the method's signature, the
    script prints the error, exits with status 1 and writes nothing. *)
Theorem replace_method_not_found content :
  contains needle content = false →
  replace_method content
  = {| printed := [Error_no_method]; written := None; exit_status := 1 |}.
Proof.
  intros Hno. unfold replace_method. rewrite find_start_None; [done|].
  apply Forall_forall. intros line (a & b & Heq)%split_lines_segments.
  destruct (contains needle line) eqn:Hc; [|done].
  rewrite Heq, (contains_embedded _ a line b Hc) in Hno. done.
Qed.

Lemma replace_method_not_found_sample :
  contains needle (lit "class Plugin {}") = false
  ∧ replace_method (lit "class Plugin {}")
    = {| printed := [Error_no_method]; written := None; exit_status := 1 |}.
Proof.
  split; [vm_compute; reflexivity|].
  apply replace_method_not_found. vm_compute. reflexivity.
Defined.



(** X18: the text the script writes has the lines before the replaced
    region, the four lines of the stub, and the lines after the region,
    unchanged and in this order. *)
Theorem replacement_keeps_rest content new :
  written (replace_method content) = Some new →
  ∃ s e,
    (s ≤ e < length (split_lines content))%nat
    ∧ split_lines new
      = take s (split_lines content) ++ new_method
          ++ drop (S e) (split_lines content)
    ∧ (length (split_lines new) + (e - s + 1)
       = length (split_lines content) + 4)%nat.
Proof.
  intros (s & e & Hs & He & ->)%replace_method_written.
  apply find_start_Some in Hs as (_ & l & Hl%lookup_lt_Some & _).
  apply find_end_spec in He as (Hse & _).
  rewrite length_drop in Hse. exists s, e. split; [lia|].
  replace (e + 1)%nat with (S e) by lia.
  pose proof (split_lines_no_newline content) as Hnl.
  rewrite new_lines_split.
  - split; [done|]. rewrite !length_app, length_take, length_drop.
    cbn [length new_method]. lia.
  - rewrite <- (take_drop s (split_lines content)) in Hnl.
    by apply Forall_app in Hnl as [? _].
  - rewrite <- (take_drop (S e) (split_lines content)) in Hnl.
    by apply Forall_app in Hnl as [_ ?].
Qed.

Lemma replacement_keeps_rest_sample :
  (∃ new, written (replace_method sample_source) = Some new
    ∧ ∃ s e,
        (s ≤ e < length (split_lines sample_source))%nat
        ∧ split_lines new
          = take s (split_lines sample_source) ++ new_method
              ++ drop (S e) (split_lines sample_source)
        ∧ (length (split_lines new) + (e - s + 1)
           = length (split_lines sample_source) + 4)%nat).
Proof.
  assert (∃ new, written (replace_method sample_source) = Some new)
    as [new H] by (eexists; vm_compute; reflexivity).
  exists new. split; [exact H|]. exact (replacement_keeps_rest _ _ H).
Defined.

Lemma find_end_stub post i :
  find_end (new_method ++ post) i (0, false) = Some (S (S (S i))).
Proof. reflexivity. Qed.

Lemma find_start_stub post : find_start (new_method ++ post) = Some 0%nat.
Proof. reflexivity. Qed.

Lemma replace_method_on_stub pre post :
  Forall (λ l, contains needle l = false) pre →
  Forall (λ l, newline ∉ l) pre → Forall (λ l, newline ∉ l) post →
  written (replace_method (join_lines (pre ++ new_method ++ post)))
  = Some (join_lines (pre ++ new_method ++ post))
  ∧ exit_status (replace_method (join_lines (pre ++ new_method ++ post))) = 0.
Proof.
  intros Hpre Hnpre Hnpost. unfold replace_method.
  rewrite new_lines_split by done.
  rewrite find_start_app, find_start_stub by done.
  cbn [fmap option_fmap option_map]. rewrite Nat.add_0_r.
  rewrite drop_app_length, find_end_stub. cbn [written exit_status].
  split; [|done]. do 2 f_equal.
  rewrite take_app_length. f_equal.
  replace (S (S (S (length pre))) + 1)%nat with (length pre + 4)%nat by lia.
  rewrite drop_app_add'; [|done]. done.
Qed.

(** X19: the script is idempotent on its own output: run on the text it
    wrote, it finds the stub, replaces it by itself and writes the same
    text again. *)
Theorem replace_method_idempotent content new :
  written (replace_method content) = Some new →
  written (replace_method new) = Some new
  ∧ exit_status (replace_method new) = 0.
Proof.
  intros (s & e & Hs & He & ->)%replace_method_written.
  apply find_start_Some in Hs as (Hpre & _).
  pose proof (split_lines_no_newline content) as Hnl.
  apply replace_method_on_stub; [done| |].
  - rewrite <- (take_drop s (split_lines content)) in Hnl.
    by apply Forall_app in Hnl as [? _].
  - rewrite <- (take_drop (e + 1) (split_lines content)) in Hnl.
    by apply Forall_app in Hnl as [_ ?].
Qed.

Lemma replace_method_idempotent_sample :
  ∃ new, written (replace_method sample_source) = Some new
         ∧ written (replace_method new) = Some new
         ∧ exit_status (replace_method new) = 0.
Proof.
  assert (∃ new, written (replace_method sample_source) = Some new)
    as [new H] by (eexists; vm_compute; reflexivity).
  exists new. split; [exact H|]. exact (replace_method_idempotent _ _ H).
Defined.

End replace_method_facts.
